(** * docker-proxy entry point (packages/docker-proxy/main.ts)

    A shallow embedding of the entry point of the docker proxy: how the SSH
    connection configuration is read from the process environment, how a
    connection check result is rendered, what [main] does in check-only mode
    and in steady state, and how the published tunnel state reaches the status
    web server.

    Values that cross the JavaScript boundary (the configuration object, the
    logged object, what is written to standard output) are modelled as
    JavaScript values: objects are property lists in insertion order, object
    literals with spread are evaluated property by property, and
    [JSON.stringify] is a function to strings. *)

From Stdlib Require Import String Ascii List ZArith Bool Lia DecimalString.
From stdpp Require Import base option strings gmap list.

Set Warnings "-register-all".

Local Open Scope Z_scope.
Local Open Scope string_scope.

(* ===================================================================== *)
(** ** JavaScript values                                                  *)
(* ===================================================================== *)

Module JS.

(** The values main.ts handles: [undefined], [null], booleans, (integer)
    numbers, strings, arrays and plain objects. An object is the list of its
    own enumerable properties in insertion order (the order JavaScript keeps
    for property names that are not array indices, as all names here are). *)
Inductive jsval : Type :=
| JUndefined
| JNull
| JBool (b : bool)
| JNum (z : Z)
| JStr (s : string)
| JArr (items : list jsval)
| JObj (props : list (string * jsval)).

Definition jsobj : Type := list (string * jsval).

(** An [Error] instance: [name], [message] and the optional [stack]. *)
Record JsError : Type := mkError {
  err_name : string;
  err_message : string;
  err_stack : option string
}.

(** [Boolean(v)], the truthiness every [||], [if] and [filter(Boolean)] uses. *)
Definition truthy (v : jsval) : bool :=
  match v with
  | JUndefined | JNull => false
  | JBool b => b
  | JNum z => negb (Z.eqb z 0)
  | JStr s => negb (String.eqb s "")
  | JArr _ | JObj _ => true
  end.

(** [a || b] *)
Definition or_else (a b : jsval) : jsval := if truthy a then a else b.

(** [a ?? b] *)
Definition nullish (a b : jsval) : jsval :=
  match a with
  | JUndefined | JNull => b
  | _ => a
  end.

(** [o.k]: the value of the first property named [k], if any. *)
Fixpoint getProp (k : string) (o : jsobj) : option jsval :=
  match o with
  | [] => None
  | (k', v) :: o' => if String.eqb k k' then Some v else getProp k o'
  end.

(** [k in o] *)
Definition hasProp (k : string) (o : jsobj) : bool :=
  match getProp k o with Some _ => true | None => false end.

(** [o[k] = v] on an object under construction: an existing property keeps
    its place and takes the new value, a new one goes last. *)
Fixpoint setProp (k : string) (v : jsval) (o : jsobj) : jsobj :=
  match o with
  | [] => [(k, v)]
  | (k', v') :: o' =>
      if String.eqb k k' then (k, v) :: o' else (k', v') :: setProp k v o'
  end.

(** An object whose property names are pairwise different. *)
Fixpoint uniqueKeys (o : jsobj) : bool :=
  match o with
  | [] => true
  | (k, _) :: o' => negb (hasProp k o') && uniqueKeys o'
  end.

(** The parts of an object literal: [...src] and [k: v]. *)
Inductive member : Type :=
| Spread (src : jsobj)
| Prop_ (k : string) (v : jsval).

Definition define (acc : jsobj) (m : member) : jsobj :=
  match m with
  | Spread src => fold_left (fun a kv => setProp (fst kv) (snd kv) a) src acc
  | Prop_ k v => setProp k v acc
  end.

(** [{ m1, m2, ... }]: members are evaluated left to right into a fresh
    object, so a later member overrides an earlier one of the same name. *)
Definition objectLiteral (ms : list member) : jsobj := fold_left define ms [].

(** [Error.prototype.toString]. *)
Definition errorToString (e : JsError) : string :=
  if String.eqb (err_name e) "" then err_message e
  else if String.eqb (err_message e) "" then err_name e
  else err_name e +:+ ": " +:+ err_message e.

(** *** JSON.stringify *)

Definition dquote : ascii := "034"%char.
Definition backslash : ascii := "\"%char.
Definition LF : ascii := "010"%char.
Definition CR : ascii := "013"%char.

Definition hexDigit (n : N) : ascii :=
  if (n <? 10)%N then ascii_of_N (48 + n) else ascii_of_N (87 + n).

(** One code unit of a string inside a JSON string literal
    (QuoteJSONString): the short escapes, [\u00xx] for the other control
    characters, anything else as it is. *)
Definition escapeChar (c : ascii) : string :=
  let n := N_of_ascii c in
  if (n =? 8)%N then String backslash "b"
  else if (n =? 9)%N then String backslash "t"
  else if (n =? 10)%N then String backslash "n"
  else if (n =? 12)%N then String backslash "f"
  else if (n =? 13)%N then String backslash "r"
  else if (n =? 34)%N then String backslash (String dquote "")
  else if (n =? 92)%N then String backslash (String backslash "")
  else if (n <? 32)%N then
    String backslash ("u00" +:+ String (hexDigit (n / 16)) (String (hexDigit (n mod 16)) ""))
  else String c "".

Fixpoint escape (s : string) : string :=
  match s with
  | EmptyString => ""
  | String c s' => escapeChar c +:+ escape s'
  end.

Definition quote (s : string) : string :=
  String dquote (escape s +:+ String dquote "").

(** The decimal digits of an integer, which is how JavaScript prints an
    integer of magnitude below 2^53; larger numbers, which a double rounds
    and prints in exponent form from 1e21, are outside this model. *)
Definition numberToString (z : Z) : string :=
  NilZero.string_of_int (Z.to_int z).

Fixpoint join (sep : string) (l : list string) : string :=
  match l with
  | [] => ""
  | [s] => s
  | s :: l' => s +:+ sep +:+ join sep l'
  end.

(** [JSON.stringify(v)] without indentation: [None] is JavaScript's
    [undefined] result. A property whose value is [undefined] is left out of
    an object; an [undefined] array item is written [null]. *)
Fixpoint stringify (v : jsval) : option string :=
  match v with
  | JUndefined => None
  | JNull => Some "null"
  | JBool b => Some (if b then "true" else "false")
  | JNum z => Some (numberToString z)
  | JStr s => Some (quote s)
  | JArr items =>
      let fix go (l : list jsval) : list string :=
        match l with
        | [] => []
        | x :: l' => default "null" (stringify x) :: go l'
        end in
      Some ("[" +:+ join "," (go items) +:+ "]")
  | JObj props =>
      let fix go (l : list (string * jsval)) : list string :=
        match l with
        | [] => []
        | (k, x) :: l' =>
            match stringify x with
            | Some s => (quote k +:+ ":" +:+ s) :: go l'
            | None => go l'
            end
        end in
      Some ("{" +:+ join "," (go props) +:+ "}")
  end.

End JS.
Import JS.

Section JsvalInduction.

Variable P : jsval -> Prop.
Hypothesis P_undefined : P JUndefined.
Hypothesis P_null : P JNull.
Hypothesis P_bool : forall b, P (JBool b).
Hypothesis P_num : forall z, P (JNum z).
Hypothesis P_str : forall s, P (JStr s).
Hypothesis P_arr : forall items, Forall P items -> P (JArr items).
Hypothesis P_obj : forall props, Forall (fun kv => P (snd kv)) props -> P (JObj props).

(** Induction over values, through the items of arrays and the property
    values of objects. *)
Fixpoint jsval_nested_ind (v : jsval) : P v :=
  match v with
  | JUndefined => P_undefined
  | JNull => P_null
  | JBool b => P_bool b
  | JNum z => P_num z
  | JStr s => P_str s
  | JArr items =>
      P_arr items
        ((fix go (l : list jsval) : Forall P l :=
            match l with
            | [] => @List.Forall_nil _ P
            | x :: l' => @List.Forall_cons _ P x l' (jsval_nested_ind x) (go l')
            end) items)
  | JObj props =>
      P_obj props
        ((fix go (l : list (string * jsval)) : Forall (fun kv => P (snd kv)) l :=
            match l with
            | [] => @List.Forall_nil _ _
            | kv :: l' => @List.Forall_cons _ _ kv l' (jsval_nested_ind (snd kv)) (go l')
            end) props)
  end.

End JsvalInduction.

(* ===================================================================== *)
(** ** The process and what it computes with                              *)
(* ===================================================================== *)

(** Why a computation stopped: it returned, it threw, or [process.exit]
    ended the process. *)
Inductive completion (A : Type) : Type :=
| Return (a : A)
| Throw (e : JsError)
| Exit (code : Z).
Arguments Return {A} a.
Arguments Throw {A} e.
Arguments Exit {A} code.

(** pino's levels, in increasing severity. *)
Inductive level : Type := Debug | Info | Warn | Error.

Definition severity (l : level) : Z :=
  match l with Debug => 20 | Info => 30 | Warn => 40 | Error => 50 end.

(** What [main] does to the outside world, in order. *)
Inductive event : Type :=
| Log (lvl : level) (fmt : string) (args : list jsval)
| LogError (e : JsError)
| CheckConnection (connectionConfig : jsobj)
| Stdout (s : string)
| NewDocker (socketPath : string)
| CreateDockerClient (debounceWait : Z)
| CreateSshClient (connectionConfig : jsobj)
| ListenToContainers
| CreateWebServer
| Listen (port : jsval).

(** A computation: the events it caused and how it completed. *)
Definition Prog (A : Type) : Type := list event * completion A.

Definition ret {A} (a : A) : Prog A := ([], Return a).

Definition bind {A B} (m : Prog A) (k : A -> Prog B) : Prog B :=
  match m with
  | (t, Return a) => let (t', c) := k a in ((t ++ t')%list, c)
  | (t, Throw e) => (t, Throw e)
  | (t, Exit n) => (t, Exit n)
  end.

Definition emit (e : event) : Prog unit := ([e], Return tt).

Definition lift {A} (r : JsError + A) : Prog A :=
  match r with
  | inl e => ([], Throw e)
  | inr a => ([], Return a)
  end.

(** [process.exit(code)] *)
Definition exit {A} (code : Z) : Prog A := ([], Exit code).

#[global] Instance prog_ret : MRet Prog := @ret.
#[global] Instance prog_bind : MBind Prog := fun A B k m => bind m k.

(** The outcome of [void main()]: a rejected promise nobody handles ends a
    Node process (version 15 and later) with exit code 1; after a normal
    return the process stays alive on its listeners. *)
Definition exitCode {A} (c : completion A) : option Z :=
  match c with
  | Return _ => None
  | Throw _ => Some 1
  | Exit n => Some n
  end.

(** The result of a connection check as main.ts inspects it: which of the
    properties [unverifiedHostKey] and [error] the object has, and its other
    properties. The host key is the string of the key's bytes. *)
Record ConnectionCheckResult : Type := mkResult {
  unverifiedHostKey : option string;
  error : option JsError;
  payload : jsobj
}.

(** How the awaited [createSshClient] call ends: the client is connected, the
    promise rejects, or the client reports an error through [onError]. *)
Inductive sshStart : Type :=
| Connected
| Rejected (e : JsError)
| OnError (e : JsError).

(** The tunnel state [sshClient.updateTunnels] resolves to. *)
Definition SshState : Type := jsobj.

(** [os.EOL] *)
Inductive platform : Type := Posix | Win32.

Definition EOL (p : platform) : string :=
  match p with
  | Posix => String LF ""
  | Win32 => String CR (String LF "")
  end.

Definition typeError (msg : string) : JsError :=
  mkError "TypeError" msg None.

(** [process.stdout.write(s)]; [s] is [None] when [JSON.stringify] returned
    [undefined], which [write] rejects. *)
Definition stdoutWrite (s : option string) : Prog unit :=
  match s with
  | Some s => emit (Stdout s)
  | None => ([], Throw (typeError "The chunk argument must be of type string"))
  end.

(** Modelled from the spec: [requiredEnv] of ./src/env is not among the
    sources. A missing connection target is a configuration error: the
    variable's value when it is set, an exception when it is not. *)
Definition requiredEnv (env : gmap string string) (key : string) : JsError + string :=
  match env !! key with
  | Some v => inr v
  | None => inl (mkError "Error" ("required env var " +:+ key +:+ " not set") None)
  end.

Section Main.

(** [process.env], [process.argv] and the platform. *)
Variable env : gmap string string.
Variable argv : list string.
Variable os : platform.

(** What main.ts imports and calls: their results are inputs here. *)
Variable parseSshUrl : string -> JsError + jsobj.
Variable formatPublicKey : jsval -> JsError + string.
Variable readFileSync : string -> JsError + string.
Variable pathJoin : list jsval -> string.
Variable inspect : JsError -> string.
Variable checkConnection : jsobj -> ConnectionCheckResult.
Variable createSshClient : jsobj -> sshStart.

(** [process.env.K] *)
Definition envVar (k : string) : jsval :=
  match env !! k with
  | Some s => JStr s
  | None => JUndefined
  end.

(** [o.k] where a missing property reads [undefined]. *)
Definition prop (k : string) (o : jsobj) : jsval := default JUndefined (getProp k o).

(** The [connectionConfig] object literal of [sshConnectionConfigFromEnv]. *)
Definition connectionConfigLiteral (parsed : jsobj) (clientPrivateKey : jsval) : jsobj :=
  objectLiteral
    [ Spread parsed;
      Prop_ "clientPrivateKey" clientPrivateKey;
      Prop_ "username" (nullish (envVar "USER") (JStr "foo"));
      Prop_ "knownServerPublicKeys"
            (JArr (List.filter truthy [envVar "SSH_SERVER_PUBLIC_KEY"]));
      Prop_ "insecureSkipVerify" (JBool (truthy (envVar "INSECURE_SKIP_VERIFY")));
      Prop_ "tlsServerName" (or_else (envVar "TLS_SERVERNAME") JUndefined) ].

(** [process.env.SSH_PRIVATE_KEY || fs.readFileSync(...)] *)
Definition clientPrivateKeyFromEnv : JsError + jsval :=
  if truthy (envVar "SSH_PRIVATE_KEY") then inr (envVar "SSH_PRIVATE_KEY")
  else match readFileSync
               (pathJoin [or_else (envVar "HOME") (JStr "/root"); JStr ".ssh"; JStr "id_rsa"]) with
       | inl e => inl e
       | inr s => inr (JStr s)
       end.

Definition sshConnectionConfigFromEnv : JsError + (jsobj * string) :=
  match requiredEnv env "SSH_URL" with
  | inl e => inl e
  | inr sshUrl =>
    match parseSshUrl sshUrl with
    | inl e => inl e
    | inr parsed =>
      match clientPrivateKeyFromEnv with
      | inl e => inl e
      | inr clientPrivateKey =>
          inr (connectionConfigLiteral parsed clientPrivateKey, sshUrl)
      end
    end
  end.

Definition formatConnectionCheckResult (r : ConnectionCheckResult) : JsError + jsval :=
  match unverifiedHostKey r with
  | Some key =>
      match formatPublicKey (JStr key) with
      | inl e => inl e
      | inr k => inr (JObj (objectLiteral [Prop_ "unverifiedHostKey" (JStr k)]))
      end
  | None =>
      match error r with
      | Some e =>
          inr (JObj (objectLiteral
                 [ Prop_ "error" (or_else (JStr (err_message e)) (JStr (errorToString e)));
                   Prop_ "stack" (match err_stack e with Some s => JStr s | None => JUndefined end);
                   Prop_ "details" (JStr (inspect e)) ]))
      | None => inr (JObj (payload r))
      end
  end.

(** The logger [main] creates: level [debug] when [DEBUG] is set, [info]
    otherwise; a call below the level writes nothing. *)
Definition logLevel : level := if truthy (envVar "DEBUG") then Debug else Info.

Definition log (lvl : level) (fmt : string) (args : list jsval) : Prog unit :=
  if Z.leb (severity logLevel) (severity lvl) then emit (Log lvl fmt args) else ret tt.

Definition logError (e : JsError) : Prog unit :=
  if Z.leb (severity logLevel) (severity Error) then emit (LogError e) else ret tt.

Definition REDACTED : string := "*** REDACTED ***".

(** The object the startup debug line is given. *)
Definition sshConfigLog (connectionConfig : jsobj) (clientPublicKey : string) : jsobj :=
  objectLiteral
    [ Spread connectionConfig;
      Prop_ "clientPrivateKey" (JStr REDACTED);
      Prop_ "clientPublicKey" (JStr clientPublicKey) ].

Definition checkOnly : bool :=
  truthy (envVar "SSH_CHECK_ONLY") || bool_decide ("check" ∈ argv).

Definition main : Prog unit :=
  cfg ← lift sshConnectionConfigFromEnv;
  let connectionConfig := fst cfg in
  let sshUrl := snd cfg in
  clientPublicKey ← lift (formatPublicKey (prop "clientPrivateKey" connectionConfig));
  log Debug "ssh config: %j" [JObj (sshConfigLog connectionConfig clientPublicKey)];;
  if checkOnly then
    emit (CheckConnection connectionConfig);;
    let result := checkConnection connectionConfig in
    doc ← lift (formatConnectionCheckResult result);
    stdoutWrite (stringify doc);;
    stdoutWrite (Some (EOL os));;
    exit 0
  else
    emit (NewDocker "/var/run/docker.sock");;
    emit (CreateDockerClient 500);;
    emit (CreateSshClient connectionConfig);;
    match createSshClient connectionConfig with
    | Rejected e => ([], Throw e)
    | OnError e => logError e;; exit 1
    | Connected =>
        log Info "ssh client connected to %j" [JStr sshUrl];;
        emit ListenToContainers;;
        emit CreateWebServer;;
        emit (Listen (nullish (envVar "PORT") (JNum 3000)))
    end.

(** The startup debug line, when the logger's level lets it through. *)
Definition startupLog (cfg : jsobj) (pk : string) : list event :=
  fst (log Debug "ssh config: %j" [JObj (sshConfigLog cfg pk)]).

(** What steady-state mode has done when [createSshClient] is awaited. *)
Definition steadyPrefix (cfg : jsobj) (pk : string) : list event :=
  (startupLog cfg pk
   ++ [NewDocker "/var/run/docker.sock"; CreateDockerClient 500; CreateSshClient cfg])%list.

(** A check result [formatConnectionCheckResult] can render: the host key it
    carries, if any, is one [formatPublicKey] accepts. *)
Definition renderable (r : ConnectionCheckResult) : bool :=
  match unverifiedHostKey r with
  | Some key => match formatPublicKey (JStr key) with inr _ => true | inl _ => false end
  | None => true
  end.

(** *** After [main] returned

    [main] leaves three callbacks behind: [onChange] (given to the docker
    client), [getSshState] (given to the web server) and the two error
    handlers. The process from then on is driven by what its collaborators do. *)

Inductive input : Type :=
| UpdateTunnelsDone (s : SshState)
    (** in [onChange], the awaited [sshClient.updateTunnels(services)]
        resolved with [s] and the rest of the callback runs *)
| GetSshState (call : nat)
    (** the web server calls [getSshState()]; [call] names the call *)
| RunReaction (call : nat)
    (** the promise job [() => state] of that call runs *)
| SshClientError (e : JsError)
    (** the ssh client calls [onError] *)
| WebServerError (e : JsError)
    (** the web server emits ['error'] *)
| Listening (address : string).
    (** the [listen] callback *)

Record running : Type := mkRunning {
  state : option SshState;       (** [let state: SshState]; [None] is unassigned *)
  initResolved : bool;           (** [initPromise] is fulfilled *)
  thenWaiting : list nat;        (** reactions registered while it was pending *)
  jobs : list nat;               (** reaction jobs queued to run *)
  out : list event;              (** what was written and logged *)
  answers : list (nat * option SshState);
                                 (** what each [getSshState()] promise resolved to *)
  exited : option Z              (** [process.exit] was called with this code *)
}.

Definition started : running :=
  mkRunning None false [] [] [] [] None.

Fixpoint removeFirst (c : nat) (l : list nat) : list nat :=
  match l with
  | [] => []
  | x :: l' => if Nat.eqb c x then l' else x :: removeFirst c l'
  end.

(** The error handlers: [log.error(err); process.exit(1)]. *)
Definition fatal (r : running) (e : JsError) : running :=
  mkRunning (state r) (initResolved r) (thenWaiting r) (jobs r)
            (out r ++ fst (logError e))%list (answers r) (Some 1).

Definition step (r : running) (i : input) : running :=
  match exited r with
  | Some _ => r
  | None =>
    match i with
    | UpdateTunnelsDone s =>
        (* state = await ...;  write(JSON.stringify(state)); write(EOL); resolve() *)
        match stringify (JObj s) with
        | Some doc =>
            mkRunning (Some s) true []
                      (if initResolved r then jobs r else (jobs r ++ thenWaiting r)%list)
                      (out r ++ [Stdout doc; Stdout (EOL os)])%list
                      (answers r) None
        | None =>
            mkRunning (Some s) (initResolved r) (thenWaiting r) (jobs r) (out r)
                      (answers r) None
        end
    | GetSshState c =>
        (* initPromise.then(() => state) *)
        if initResolved r
        then mkRunning (state r) true (thenWaiting r) (jobs r ++ [c])%list (out r) (answers r) None
        else mkRunning (state r) false (thenWaiting r ++ [c])%list (jobs r) (out r) (answers r) None
    | RunReaction c =>
        if bool_decide (c ∈ jobs r)
        then mkRunning (state r) (initResolved r) (thenWaiting r) (removeFirst c (jobs r))
                       (out r) (answers r ++ [(c, state r)])%list None
        else r
    | SshClientError e => fatal r e
    | WebServerError e => fatal r e
    | Listening address =>
        mkRunning (state r) (initResolved r) (thenWaiting r) (jobs r)
                  (out r ++ fst (log Info ("listening on " +:+ address) []))%list
                  (answers r) None
    end
  end.

Definition run (r : running) (ins : list input) : running := fold_left step ins r.

(** The state of the last reconciliation cycle that completed in [ins]. *)
Definition lastPublished (ins : list input) : option SshState :=
  fold_left (fun acc i => match i with UpdateTunnelsDone s => Some s | _ => acc end) ins None.

End Main.

(** An SSH connection attempt: the one-shot check or the persistent client. *)
Definition connectionAttempt (e : event) : bool :=
  match e with
  | CheckConnection _ | CreateSshClient _ => true
  | _ => false
  end.

Definition isCheck (e : event) : bool :=
  match e with CheckConnection _ => true | _ => false end.

(** The steps that start the reconciler: the docker client, the persistent
    ssh client, the container listener and the status server. *)
Definition startsReconciler (e : event) : bool :=
  match e with
  | NewDocker _ | CreateDockerClient _ | CreateSshClient _
  | ListenToContainers | CreateWebServer | Listen _ => true
  | _ => false
  end.

(** What was written to standard output, in order. *)
Definition stdoutOf (t : list event) : list string :=
  omap (fun e => match e with Stdout s => Some s | _ => None end) t.

(** How often a character occurs in a string. *)
Fixpoint countChar (c : ascii) (s : string) : nat :=
  match s with
  | EmptyString => 0
  | String c' s' => (if Ascii.eqb c c' then 1 else 0) + countChar c s'
  end.

(** The pinned keys and the skip flag as the configuration object holds them. *)
Definition knownServerPublicKeys (connectionConfig : jsobj) : list string :=
  match getProp "knownServerPublicKeys" connectionConfig with
  | Some (JArr items) =>
      omap (fun v => match v with JStr s => Some s | _ => None end) items
  | _ => []
  end.

Definition insecureSkipVerify (connectionConfig : jsobj) : bool :=
  match getProp "insecureSkipVerify" connectionConfig with
  | Some v => truthy v
  | None => false
  end.

(* ===================================================================== *)
(** ** The Connection Checker's host-key policy                           *)
(* ===================================================================== *)

Module Checker.

(** What the single handshake attempt meets: the server presents a host key,
    or the transport or the authentication fails. *)
Inductive handshake : Type :=
| Presented (key : string)
| Failed (e : JsError).

Definition Ok : ConnectionCheckResult := mkResult None None [].
Definition UnverifiedHostKey (key : string) : ConnectionCheckResult :=
  mkResult (Some key) None [].
Definition Error (e : JsError) : ConnectionCheckResult := mkResult None (Some e) [].

(** Modelled from the spec: the connection checker (./src/ssh) is not among
    the sources. Host-key verification policy: if the presented key matches
    any entry in the pinned key set, succeed; if the pinned set is empty and
    insecure-skip-verify is set, succeed; otherwise return [UnverifiedHostKey]
    carrying the presented key. *)
Definition verifyHostKey (pinned : list string) (skipVerify : bool) (key : string)
  : ConnectionCheckResult :=
  if existsb (String.eqb key) pinned then Ok
  else if (Nat.eqb (length pinned) 0 && skipVerify)%bool then Ok
  else UnverifiedHostKey key.

(** Modelled from the spec: one handshake attempt, any transport or
    authentication failure returns [Error], a presented key goes through the
    host-key policy. *)
Definition checkConnection (connectionConfig : jsobj) (h : handshake) : ConnectionCheckResult :=
  match h with
  | Failed e => Error e
  | Presented key =>
      verifyHostKey (knownServerPublicKeys connectionConfig)
                    (insecureSkipVerify connectionConfig) key
  end.

End Checker.

(* ===================================================================== *)
(** ** The SSH Connection Manager's connection life cycle                 *)
(* ===================================================================== *)

Module Manager.

(** What the network does to the manager's one connection. [jitter] is the
    random part of the next retry delay. *)
Inductive netEvent : Type :=
| HandshakeOk
| HandshakeFailed (e : JsError) (jitter : Z)
| Disconnected (e : JsError) (jitter : Z).

Inductive phase : Type :=
| Initial
| Established
| Reconnecting (attempt : nat)
| Dead.

(** What the manager does in response. *)
Inductive action : Type :=
| CallOnError (e : JsError)
| Reconnect (attempt : nat) (delay : Z).

Section Backoff.

Variable baseDelay : Z.
Variable maxDelay : Z.

(** Modelled from the spec: exponential backoff and jitter, bounded by a
    maximum retry interval. *)
Definition backoff (attempt : nat) (jitter : Z) : Z :=
  Z.min maxDelay (baseDelay * 2 ^ Z.of_nat attempt + Z.max 0 jitter).

(** Modelled from the spec: the connection manager (./src/ssh) is not among
    the sources. Only an unrecoverable initial-handshake failure is fatal (it
    reaches [onError]); an unexpected disconnect of an established connection
    starts reconnection, retried indefinitely. *)
Definition step (p : phase) (ev : netEvent) : phase * list action :=
  match p, ev with
  | Initial, HandshakeOk => (Established, [])
  | Initial, HandshakeFailed e _ => (Dead, [CallOnError e])
  | Initial, Disconnected e _ => (Dead, [CallOnError e])
  | Established, Disconnected _ j => (Reconnecting 0, [Reconnect 0 (backoff 0 j)])
  | Established, _ => (Established, [])
  | Reconnecting _, HandshakeOk => (Established, [])
  | Reconnecting n, HandshakeFailed _ j => (Reconnecting (S n), [Reconnect (S n) (backoff (S n) j)])
  | Reconnecting n, Disconnected _ j => (Reconnecting (S n), [Reconnect (S n) (backoff (S n) j)])
  | Dead, _ => (Dead, [])
  end.

Fixpoint steps (p : phase) (evs : list netEvent) : phase * list action :=
  match evs with
  | [] => (p, [])
  | ev :: evs' =>
      let (p', acts) := step p ev in
      let (p'', acts') := steps p' evs' in
      (p'', (acts ++ acts')%list)
  end.

(** The connection has been established at least once. *)
Definition up (p : phase) : Prop :=
  match p with
  | Established | Reconnecting _ => True
  | Initial | Dead => False
  end.

(** The retries that follow failed attempt number [n]: one more for each
    further failure, each with the delay of its attempt. *)
Fixpoint retries (n : nat) (jitters : list Z) : list action :=
  match jitters with
  | [] => []
  | j :: js => Reconnect (S n) (backoff (S n) j) :: retries (S n) js
  end.

(** How the awaited [createSshClient] of main.ts ends for the first thing the
    network does. *)
Definition start (ev : netEvent) : sshStart :=
  match step Initial ev with
  | (_, CallOnError e :: _) => OnError e
  | _ => Connected
  end.

(** What the manager's actions are to the running process: [CallOnError] is
    the call of the [onError] handler main.ts passed in. *)
Definition inputs (acts : list action) : list input :=
  omap (fun a => match a with CallOnError e => Some (SshClientError e) | Reconnect _ _ => None end) acts.

End Backoff.

End Manager.

(* ===================================================================== *)
(** ** Concrete collaborators, for running the definitions                *)
(* ===================================================================== *)

Module Demo.

Definition parseSshUrl (s : string) : JsError + jsobj :=
  if String.eqb s "" then inl (mkError "Error" "invalid url" None)
  else inr [("hostname", JStr s); ("port", JNum 2222); ("isTls", JBool false)].

Definition formatPublicKey (v : jsval) : JsError + string :=
  match v with
  | JStr (String c s) => inr ("ssh-rsa " +:+ String c s)
  | _ => inl (mkError "Error" "cannot parse key" None)
  end.

Definition readFileSync (path : string) : JsError + string :=
  inl (mkError "Error" ("ENOENT: no such file or directory, open " +:+ path) None).

Definition pathJoin (parts : list jsval) : string :=
  join "/" (List.map (fun v => match v with JStr s => s | _ => "" end) parts).

(** A stand-in for [util.inspect]: the error's string form, without the
    stack and properties the real function adds. *)
Definition inspect (e : JsError) : string := errorToString e.

Definition env : gmap string string :=
  list_to_map [("SSH_URL", "ssh://example.org:2222"); ("SSH_PRIVATE_KEY", "PRIVATE");
               ("SSH_SERVER_PUBLIC_KEY", "K"); ("DEBUG", "1")].

Definition argvCheck : list string := ["node"; "main.js"; "check"].
Definition argvRun : list string := ["node"; "main.js"].

Definition unverified (cfg : jsobj) : ConnectionCheckResult := mkResult (Some "HOSTKEY") None [].

Definition connects (cfg : jsobj) : sshStart := Connected.

Definition refused : JsError := mkError "Error" "connect ECONNREFUSED" None.

(** The configuration this environment gives. *)
Definition config : jsobj :=
  Eval vm_compute in
    match sshConnectionConfigFromEnv env parseSshUrl readFileSync pathJoin with
    | inr (cfg, _) => cfg
    | inl _ => []
    end.

Definition sshUrl : string := "ssh://example.org:2222".

Definition mainWith (e : gmap string string) (argv : list string)
    (check : jsobj -> ConnectionCheckResult) (ssh : jsobj -> sshStart) : Prog unit :=
  main e argv Posix parseSshUrl formatPublicKey readFileSync pathJoin inspect check ssh.

End Demo.

(* ===================================================================== *)
(** ** Vocabulary for the whole-run properties                            *)
(* ===================================================================== *)

(** The properties the [connectionConfig] literal sets after the spread. *)
Definition configFields : list string :=
  ["clientPrivateKey"; "username"; "knownServerPublicKeys"; "insecureSkipVerify";
   "tlsServerName"].

(** The [getSshState()] calls made in [ins], oldest first. *)
Definition calls (ins : list input) : list nat :=
  omap (fun i => match i with GetSshState c => Some c | _ => None end) ins.

(** The states of the reconciliation cycles completed in [ins], oldest first. *)
Definition published (ins : list input) : list SshState :=
  omap (fun i => match i with UpdateTunnelsDone s => Some s | _ => None end) ins.

(** The two chunks [onChange] writes for a state. *)
Definition stateLine (os : platform) (s : SshState) : list string :=
  match stringify (JObj s) with
  | Some doc => [doc; EOL os]
  | None => []
  end.

(** Sample inputs for the whole-run properties. *)
Module Sample.

(** A check that reports a host key [Demo.formatPublicKey] rejects. *)
Definition emptyKey (cfg : jsobj) : ConnectionCheckResult := mkResult (Some "") None [].

(** A check that failed. *)
Definition failed : ConnectionCheckResult := mkResult None (Some Demo.refused) [].

Definition tunnels : SshState := [("a", JStr "active")].

(** Two calls, one before and one after the first of two cycles. *)
Definition ins : list input :=
  [GetSshState 1; Listening ":::3000"; UpdateTunnelsDone tunnels; GetSshState 2;
   UpdateTunnelsDone []].

End Sample.

(* ===================================================================== *)
(** ** Facts about objects                                                *)
(* ===================================================================== *)

Section ObjectFacts.

Example stringify_object :
  stringify (JObj [("a", JNum 80); ("b", JUndefined); ("c", JArr [JStr "x"; JUndefined; JBool true])])
  = Some (String "{" (String dquote ("a" +:+ String dquote (":80," +:+
      String dquote ("c" +:+ String dquote (":[" +:+ quote "x" +:+ ",null,true]}")))))).
Proof. reflexivity. Qed.

Lemma getProp_setProp_eq k v o : getProp k (setProp k v o) = Some v.
Proof.
  induction o as [|[k' v'] o IH]; simpl.
  - now rewrite String.eqb_refl.
  - destruct (String.eqb k k') eqn:E; simpl; rewrite ?String.eqb_refl, ?E; auto.
Qed.

Lemma getProp_setProp_ne k k' v o :
  k <> k' -> getProp k' (setProp k v o) = getProp k' o.
Proof.
  intros Hne. induction o as [|[k0 v0] o IH]; simpl.
  - destruct (String.eqb k' k) eqn:E; auto.
    apply String.eqb_eq in E. congruence.
  - destruct (String.eqb k k0) eqn:E; simpl.
    + apply String.eqb_eq in E. subst k0.
      destruct (String.eqb k' k) eqn:E'; auto.
      apply String.eqb_eq in E'. congruence.
    + now rewrite IH.
Qed.

Lemma setProp_setProp_eq k v w o : setProp k w (setProp k v o) = setProp k w o.
Proof.
  induction o as [|[k0 v0] o IH]; simpl.
  - now rewrite String.eqb_refl.
  - destruct (String.eqb k k0) eqn:E; simpl; rewrite ?String.eqb_refl, ?E; auto.
    now rewrite IH.
Qed.

Lemma hasProp_setProp k k' v o :
  hasProp k' (setProp k v o) = (String.eqb k' k || hasProp k' o)%bool.
Proof.
  unfold hasProp. destruct (String.eqb k' k) eqn:E.
  - apply String.eqb_eq in E. subst. now rewrite getProp_setProp_eq.
  - apply String.eqb_neq in E. rewrite getProp_setProp_ne by congruence. reflexivity.
Qed.

(** Two assignments to different properties commute once the object already
    has one of them: no new property changes the order. *)
Lemma setProp_comm k k' v v' o :
  k <> k' -> hasProp k o = true ->
  setProp k v (setProp k' v' o) = setProp k' v' (setProp k v o).
Proof.
  intros Hne. unfold hasProp. induction o as [|[k0 v0] o IH]; simpl; [discriminate|].
  destruct (String.eqb k k0) eqn:E.
  - intros _. apply String.eqb_eq in E. subst k0.
    assert (E' : String.eqb k' k = false) by (apply String.eqb_neq; congruence).
    rewrite E'. simpl. now rewrite String.eqb_refl, E'.
  - intros H. destruct (String.eqb k' k0) eqn:E'; simpl.
    + assert (Ek : String.eqb k k' = false) by (apply String.eqb_neq; congruence).
      now rewrite Ek, E'.
    + now rewrite E, E', IH.
Qed.

Lemma setProp_fresh k v o : hasProp k o = false -> setProp k v o = (o ++ [(k, v)])%list.
Proof.
  unfold hasProp. induction o as [|[k0 v0] o IH]; simpl; auto.
  destruct (String.eqb k k0); [discriminate|]. intros H. now rewrite IH.
Qed.

Lemma hasProp_app k o1 o2 : hasProp k (o1 ++ o2)%list = (hasProp k o1 || hasProp k o2)%bool.
Proof.
  unfold hasProp. induction o1 as [|[k0 v0] o1 IH]; simpl; auto.
  destruct (String.eqb k k0); auto.
Qed.

Lemma uniqueKeys_setProp k v o : uniqueKeys o = true -> uniqueKeys (setProp k v o) = true.
Proof.
  induction o as [|[k0 v0] o IH]; simpl; auto.
  intros H. apply andb_prop in H as [H1 H2].
  destruct (String.eqb k k0) eqn:E; simpl.
  - apply String.eqb_eq in E. subst. now rewrite H1, H2.
  - rewrite hasProp_setProp, String.eqb_sym, E. simpl. now rewrite H1, IH.
Qed.

Lemma uniqueKeys_define acc m : uniqueKeys acc = true -> uniqueKeys (define acc m) = true.
Proof.
  destruct m as [src|k v]; simpl; [|apply uniqueKeys_setProp].
  revert acc. induction src as [|[k v] src IH]; simpl; auto.
  intros acc H. apply IH. now apply uniqueKeys_setProp.
Qed.

Lemma uniqueKeys_objectLiteral ms : uniqueKeys (objectLiteral ms) = true.
Proof.
  unfold objectLiteral. generalize (eq_refl : uniqueKeys [] = true).
  generalize (@nil (string * jsval)). induction ms as [|m ms IH]; simpl; auto.
  intros acc H. apply IH. now apply uniqueKeys_define.
Qed.

(** Spreading an object with pairwise different names copies it. *)
Lemma spread_app src : forall acc,
  uniqueKeys (acc ++ src)%list = true ->
  define acc (Spread src) = (acc ++ src)%list.
Proof.
  simpl. induction src as [|[k v] src IH]; intros acc H; simpl.
  - now rewrite app_nil_r.
  - assert (Hk : hasProp k acc = false).
    { clear IH. induction acc as [|[k0 v0] acc IHa]; simpl in *; auto.
      apply andb_prop in H as [H1 H2]. rewrite hasProp_app in H1.
      unfold hasProp at 1. simpl.
      destruct (String.eqb k k0) eqn:E.
      - apply String.eqb_eq in E. subst k0. unfold hasProp at 2 in H1. simpl in H1.
        rewrite String.eqb_refl in H1. now rewrite orb_true_r in H1.
      - now apply IHa. }
    rewrite setProp_fresh by assumption.
    rewrite IH; rewrite <- app_assoc; simpl; auto.
Qed.

Lemma spread_unique o : uniqueKeys o = true -> objectLiteral [Spread o] = o.
Proof. intros H. change (define [] (Spread o) = o). now rewrite spread_app. Qed.

End ObjectFacts.

(* ===================================================================== *)
(** ** The configuration read from the environment                        *)
(* ===================================================================== *)

(** Membership in a list of events all different from the one looked for. *)
Ltac in_absurd H :=
  simpl in H; repeat (destruct H as [H|H]; [discriminate H|]); destruct H.

Ltac neq_str := apply String.eqb_neq; reflexivity.

Ltac literal_lookup :=
  repeat first
    [ rewrite getProp_setProp_eq
    | rewrite getProp_setProp_ne by neq_str ].

Section ConfigFacts.

Variable env : gmap string string.
Variable parseSshUrl : string -> JsError + jsobj.
Variable readFileSync : string -> JsError + string.
Variable pathJoin : list jsval -> string.

Local Abbreviation configFromEnv :=
  (sshConnectionConfigFromEnv env parseSshUrl readFileSync pathJoin).

(** A configuration that was read is the object literal over the parsed
    URL and the private key that was found. *)
Lemma sshConnectionConfigFromEnv_inr cfg url :
  configFromEnv = inr (cfg, url) ->
  exists parsed key,
    requiredEnv env "SSH_URL" = inr url /\
    parseSshUrl url = inr parsed /\
    clientPrivateKeyFromEnv env readFileSync pathJoin = inr key /\
    cfg = connectionConfigLiteral env parsed key.
Proof.
  unfold sshConnectionConfigFromEnv.
  destruct (requiredEnv env "SSH_URL") as [e|u] eqn:Hu; [discriminate|].
  destruct (parseSshUrl u) as [e|parsed] eqn:Hp; [discriminate|].
  destruct (clientPrivateKeyFromEnv env readFileSync pathJoin) as [e|key] eqn:Hk; [discriminate|].
  intros H. injection H as <- <-. exists parsed, key. auto.
Qed.

Lemma literal_knownServerPublicKeys parsed key :
  getProp "knownServerPublicKeys" (connectionConfigLiteral env parsed key)
  = Some (JArr (List.filter truthy [envVar env "SSH_SERVER_PUBLIC_KEY"])).
Proof.
  unfold connectionConfigLiteral, objectLiteral. cbn [fold_left define].
  now literal_lookup.
Qed.

Lemma literal_insecureSkipVerify parsed key :
  getProp "insecureSkipVerify" (connectionConfigLiteral env parsed key)
  = Some (JBool (truthy (envVar env "INSECURE_SKIP_VERIFY"))).
Proof.
  unfold connectionConfigLiteral, objectLiteral. cbn [fold_left define].
  now literal_lookup.
Qed.

Lemma literal_clientPrivateKey parsed key :
  getProp "clientPrivateKey" (connectionConfigLiteral env parsed key) = Some key.
Proof.
  unfold connectionConfigLiteral, objectLiteral. cbn [fold_left define].
  now literal_lookup.
Qed.

(** [Boolean(process.env.K)] is true exactly for a non-empty value. *)
Lemma truthy_envVar k :
  truthy (envVar env k) = true <-> exists s, env !! k = Some s /\ s <> "".
Proof.
  unfold envVar. destruct (env !! k) as [s|]; simpl.
  - rewrite negb_true_iff, String.eqb_neq. split.
    + intros H. exists s. auto.
    + intros (s' & [= <-] & H). exact H.
  - split; [discriminate|]. intros (s & H & _). discriminate.
Qed.

(** C8: the pinned server key set built from the environment is
    [[SSH_SERVER_PUBLIC_KEY]] when that variable is a non-empty string and
    empty otherwise, so it never holds more than one key. *)
Theorem knownServerPublicKeys_at_most_one cfg url :
  configFromEnv = inr (cfg, url) ->
  knownServerPublicKeys cfg =
    match env !! "SSH_SERVER_PUBLIC_KEY" with
    | Some s => if String.eqb s "" then [] else [s]
    | None => []
    end
  /\ getProp "knownServerPublicKeys" cfg = Some (JArr (List.map JStr (knownServerPublicKeys cfg)))
  /\ (length (knownServerPublicKeys cfg) <= 1)%nat.
Proof.
  intros H. apply sshConnectionConfigFromEnv_inr in H as (parsed & key & _ & _ & _ & ->).
  unfold knownServerPublicKeys. rewrite literal_knownServerPublicKeys.
  unfold envVar. destruct (env !! "SSH_SERVER_PUBLIC_KEY") as [s|]; simpl.
  - destruct (String.eqb s ""); simpl; repeat split; lia.
  - repeat split; lia.
Qed.

(** C9: the insecure-skip-verify flag is true exactly when
    INSECURE_SKIP_VERIFY is a non-empty string, whatever the string says:
    "false", "0" and "no" switch host-key verification off as well. *)
Theorem insecureSkipVerify_iff_nonempty cfg url :
  configFromEnv = inr (cfg, url) ->
  getProp "insecureSkipVerify" cfg = Some (JBool (insecureSkipVerify cfg))
  /\ (insecureSkipVerify cfg = true <->
      exists s, env !! "INSECURE_SKIP_VERIFY" = Some s /\ s <> "")
  /\ (forall s, In s ["false"; "0"; "no"] ->
      env !! "INSECURE_SKIP_VERIFY" = Some s -> insecureSkipVerify cfg = true)
  /\ (env !! "INSECURE_SKIP_VERIFY" = None \/ env !! "INSECURE_SKIP_VERIFY" = Some "" ->
      insecureSkipVerify cfg = false).
Proof.
  intros H. apply sshConnectionConfigFromEnv_inr in H as (parsed & key & _ & _ & _ & ->).
  unfold insecureSkipVerify. rewrite literal_insecureSkipVerify. cbn [truthy].
  split; [reflexivity|]. split; [apply truthy_envVar|]. split.
  - intros s Hs E. apply truthy_envVar. exists s. split; [exact E|].
    simpl in Hs. destruct Hs as [<-|[<-|[<-|[]]]]; discriminate.
  - unfold envVar. intros [-> | ->]; reflexivity.
Qed.

End ConfigFacts.

Example Demo_config_read :
  sshConnectionConfigFromEnv Demo.env Demo.parseSshUrl Demo.readFileSync Demo.pathJoin
  = inr (Demo.config, Demo.sshUrl).
Proof. vm_compute. reflexivity. Qed.

Lemma knownServerPublicKeys_at_most_one_witness :
  sshConnectionConfigFromEnv Demo.env Demo.parseSshUrl Demo.readFileSync Demo.pathJoin
  = inr (Demo.config, Demo.sshUrl)
  /\ knownServerPublicKeys Demo.config = ["K"]
  /\ (length (knownServerPublicKeys Demo.config) <= 1)%nat.
Proof.
  assert (H : sshConnectionConfigFromEnv Demo.env Demo.parseSshUrl Demo.readFileSync
                Demo.pathJoin = inr (Demo.config, Demo.sshUrl))
    by (vm_compute; reflexivity).
  split; [exact H|].
  destruct (knownServerPublicKeys_at_most_one _ _ _ _ _ _ H) as (Hk & _ & Hl).
  split; [|exact Hl]. rewrite Hk. vm_compute. reflexivity.
Defined.

Lemma insecureSkipVerify_iff_nonempty_witness :
  sshConnectionConfigFromEnv (<["INSECURE_SKIP_VERIFY" := "false"]> Demo.env)
    Demo.parseSshUrl Demo.readFileSync Demo.pathJoin
  = inr (setProp "insecureSkipVerify" (JBool true) Demo.config, Demo.sshUrl)
  /\ insecureSkipVerify (setProp "insecureSkipVerify" (JBool true) Demo.config) = true.
Proof.
  assert (H : sshConnectionConfigFromEnv (<["INSECURE_SKIP_VERIFY" := "false"]> Demo.env)
                Demo.parseSshUrl Demo.readFileSync Demo.pathJoin
              = inr (setProp "insecureSkipVerify" (JBool true) Demo.config, Demo.sshUrl))
    by (vm_compute; reflexivity).
  split; [exact H|].
  destruct (insecureSkipVerify_iff_nonempty _ _ _ _ _ _ H) as (_ & _ & Hs & _).
  apply (Hs "false"); [simpl; auto|]. vm_compute. reflexivity.
Defined.

(* ===================================================================== *)
(** ** The startup debug line                                             *)
(* ===================================================================== *)

Lemma sshConfigLog_eq cfg pk :
  sshConfigLog cfg pk
  = setProp "clientPublicKey" (JStr pk)
      (setProp "clientPrivateKey" (JStr REDACTED) (objectLiteral [Spread cfg])).
Proof. reflexivity. Qed.

Lemma sshConfigLog_clientPrivateKey cfg pk :
  getProp "clientPrivateKey" (sshConfigLog cfg pk) = Some (JStr REDACTED).
Proof. rewrite sshConfigLog_eq. now literal_lookup. Qed.

Lemma sshConfigLog_clientPublicKey cfg pk :
  getProp "clientPublicKey" (sshConfigLog cfg pk) = Some (JStr pk).
Proof. rewrite sshConfigLog_eq. now literal_lookup. Qed.

(** Overwriting the private key of a configuration literal gives the same
    object whatever the key was. *)
Lemma redact_literal env parsed key r :
  setProp "clientPrivateKey" r (connectionConfigLiteral env parsed key)
  = connectionConfigLiteral env parsed r.
Proof.
  unfold connectionConfigLiteral, objectLiteral. cbn [fold_left define].
  match goal with |- context [fold_left ?f parsed ?a] => set (P := fold_left f parsed a) end.
  assert (Hk : hasProp "clientPrivateKey" (setProp "clientPrivateKey" key P) = true)
    by (now rewrite hasProp_setProp).
  repeat (rewrite (setProp_comm "clientPrivateKey");
          [ | neq_str | rewrite ?hasProp_setProp, ?Hk, ?orb_true_r; reflexivity ]).
  now rewrite setProp_setProp_eq.
Qed.

Lemma sshConfigLog_literal env parsed key pk :
  sshConfigLog (connectionConfigLiteral env parsed key) pk
  = setProp "clientPublicKey" (JStr pk) (connectionConfigLiteral env parsed (JStr REDACTED)).
Proof.
  rewrite sshConfigLog_eq, spread_unique by apply uniqueKeys_objectLiteral.
  now rewrite redact_literal.
Qed.

(* ===================================================================== *)
(** ** What [main] does                                                   *)
(* ===================================================================== *)

Section MainFacts.

Variable env : gmap string string.
Variable argv : list string.
Variable os : platform.
Variable parseSshUrl : string -> JsError + jsobj.
Variable formatPublicKey : jsval -> JsError + string.
Variable readFileSync : string -> JsError + string.
Variable pathJoin : list jsval -> string.
Variable inspect : JsError -> string.
Variable checkConnection : jsobj -> ConnectionCheckResult.
Variable createSshClient : jsobj -> sshStart.

Local Abbreviation configFromEnv :=
  (sshConnectionConfigFromEnv env parseSshUrl readFileSync pathJoin).
Local Abbreviation theMain :=
  (main env argv os parseSshUrl formatPublicKey readFileSync pathJoin inspect
        checkConnection createSshClient).
Local Abbreviation format := (formatConnectionCheckResult formatPublicKey inspect).

Lemma startupLog_cases cfg pk :
  startupLog env cfg pk = [] \/
  startupLog env cfg pk = [Log Debug "ssh config: %j" [JObj (sshConfigLog cfg pk)]].
Proof.
  unfold startupLog, log. destruct (Z.leb _ _); simpl; auto.
Qed.

Lemma log_ret lvl fmt args : snd (log env lvl fmt args) = Return tt.
Proof. unfold log. now destruct (Z.leb _ _). Qed.

Lemma bind_log {A} lvl fmt args (k : Prog A) :
  (log env lvl fmt args ;; k) = ((fst (log env lvl fmt args) ++ fst k)%list, snd k).
Proof.
  unfold mbind, prog_bind, bind, log.
  destruct (Z.leb _ _); simpl; now destruct k.
Qed.

Lemma bind_emit {A} e (k : Prog A) : (emit e ;; k) = (e :: fst k, snd k).
Proof. unfold mbind, prog_bind, bind, emit. now destruct k. Qed.

Lemma bind_lift_inr {A B} (a : A) (k : A -> Prog B) : (lift (inr a) ≫= k) = k a.
Proof. unfold mbind, prog_bind, bind, lift. now destruct (k a). Qed.

Lemma bind_lift_inl {A B} e (k : A -> Prog B) : (lift (inl e) ≫= k) = ([], Throw e).
Proof. reflexivity. Qed.

(** A configuration error: nothing happens, [main] rejects. *)
Lemma main_config_error e :
  configFromEnv = inl e -> theMain = ([], Throw e).
Proof. intros H. unfold main. now rewrite H. Qed.

(** The private key cannot be turned into a public key: the same. *)
Lemma main_key_error cfg url e :
  configFromEnv = inr (cfg, url) ->
  formatPublicKey (prop "clientPrivateKey" cfg) = inl e ->
  theMain = ([], Throw e).
Proof. intros H K. unfold main. rewrite H, bind_lift_inr. simpl. now rewrite K. Qed.

(** Check-only mode with a result that can be rendered. *)
Lemma main_check_only cfg url pk doc text :
  configFromEnv = inr (cfg, url) ->
  formatPublicKey (prop "clientPrivateKey" cfg) = inr pk ->
  checkOnly env argv = true ->
  format (checkConnection cfg) = inr doc ->
  stringify doc = Some text ->
  theMain = ((startupLog env cfg pk
              ++ [CheckConnection cfg; Stdout text; Stdout (EOL os)])%list, Exit 0).
Proof.
  intros H K C F S. unfold main.
  rewrite H, bind_lift_inr. simpl fst. rewrite K, bind_lift_inr, bind_log, C.
  rewrite bind_emit, F, bind_lift_inr, S. reflexivity.
Qed.

(** Check-only mode when rendering the result throws. *)
Lemma main_check_only_throw cfg url pk e :
  configFromEnv = inr (cfg, url) ->
  formatPublicKey (prop "clientPrivateKey" cfg) = inr pk ->
  checkOnly env argv = true ->
  format (checkConnection cfg) = inl e ->
  theMain = ((startupLog env cfg pk ++ [CheckConnection cfg])%list, Throw e).
Proof.
  intros H K C F. unfold main.
  rewrite H, bind_lift_inr. simpl fst. rewrite K, bind_lift_inr, bind_log, C.
  rewrite bind_emit, F. reflexivity.
Qed.

(** Steady-state mode, by how the awaited [createSshClient] ends. *)
Lemma main_steady cfg url pk :
  configFromEnv = inr (cfg, url) ->
  formatPublicKey (prop "clientPrivateKey" cfg) = inr pk ->
  checkOnly env argv = false ->
  theMain =
    match createSshClient cfg with
    | Rejected e => (steadyPrefix env cfg pk, Throw e)
    | OnError e => ((steadyPrefix env cfg pk ++ fst (logError env e))%list, Exit 1)
    | Connected =>
        ((steadyPrefix env cfg pk
          ++ fst (log env Info "ssh client connected to %j" [JStr url])
          ++ [ListenToContainers; CreateWebServer;
              Listen (nullish (envVar env "PORT") (JNum 3000))])%list,
         Return tt)
    end.
Proof.
  intros H K C. unfold main, steadyPrefix.
  rewrite H, bind_lift_inr. simpl fst; simpl snd. rewrite K, bind_lift_inr, bind_log, C.
  rewrite !bind_emit.
  destruct (createSshClient cfg) as [|e|e].
  - rewrite ?bind_log, ?bind_emit. simpl. now rewrite <- ?app_assoc.
  - simpl. now rewrite <- ?app_assoc.
  - unfold logError. destruct (Z.leb _ _); simpl; now rewrite <- ?app_assoc.
Qed.

Lemma stringify_JObj o : exists text, stringify (JObj o) = Some text.
Proof. simpl. eexists. reflexivity. Qed.

Lemma format_is_object r doc : format r = inr doc -> exists o, doc = JObj o.
Proof.
  unfold formatConnectionCheckResult.
  destruct (unverifiedHostKey r) as [key|].
  - destruct (formatPublicKey (JStr key)); [discriminate|]. intros [= <-]. eauto.
  - destruct (error r); intros [= <-]; eauto.
Qed.

Lemma format_renderable r :
  renderable formatPublicKey r = true -> exists doc, format r = inr doc.
Proof.
  unfold renderable, formatConnectionCheckResult.
  destruct (unverifiedHostKey r) as [key|].
  - destruct (formatPublicKey (JStr key)); [discriminate|]. eauto.
  - destruct (error r); eauto.
Qed.

Lemma startupLog_quiet cfg pk :
  List.filter connectionAttempt (startupLog env cfg pk) = []
  /\ List.filter isCheck (startupLog env cfg pk) = []
  /\ List.filter startsReconciler (startupLog env cfg pk) = []
  /\ stdoutOf (startupLog env cfg pk) = [].
Proof. destruct (startupLog_cases cfg pk) as [-> | ->]; repeat split; reflexivity. Qed.

Lemma stdoutOf_app t1 t2 : stdoutOf (t1 ++ t2) = (stdoutOf t1 ++ stdoutOf t2)%list.
Proof. unfold stdoutOf. apply omap_app. Qed.




(** C3: the document for a check result is decided by the property the
    result has. With [unverifiedHostKey] it is the object whose only property
    is the formatted key, also when the result has an [error] as well; with
    [error] alone it carries the error's message (its string form when the
    message is empty), stack and inspected details; with neither it is the
    result itself. *)
Theorem formatConnectionCheckResult_variants (r : ConnectionCheckResult) :
  (forall key k,
      unverifiedHostKey r = Some key -> formatPublicKey (JStr key) = inr k ->
      format r = inr (JObj [("unverifiedHostKey", JStr k)])
      /\ stringify (JObj [("unverifiedHostKey", JStr k)])
         = Some ("{" +:+ quote "unverifiedHostKey" +:+ ":" +:+ quote k +:+ "}"))
  /\ (forall e,
      unverifiedHostKey r = None -> error r = Some e ->
      format r =
        inr (JObj [("error", JStr (if String.eqb (err_message e) ""
                                   then errorToString e else err_message e));
                   ("stack", match err_stack e with Some s => JStr s | None => JUndefined end);
                   ("details", JStr (inspect e))]))
  /\ (unverifiedHostKey r = None -> error r = None ->
      format r = inr (JObj (payload r))
      /\ (payload r = [] -> stringify (JObj (payload r)) = Some "{}")).
Proof.
  unfold formatConnectionCheckResult. split; [|split].
  - intros key k H K. rewrite H, K. split; reflexivity.
  - intros e H E. rewrite H, E. unfold or_else. simpl truthy.
    destruct (String.eqb (err_message e) ""); reflexivity.
  - intros H E. rewrite H, E. split; [reflexivity|]. intros ->. reflexivity.
Qed.

(** C6: when SSH_URL is unset, or cannot be parsed, or no private key can be
    had (SSH_PRIVATE_KEY unset and the default key file unreadable), [main]
    throws before anything else happens: there is no SSH connection attempt,
    and the process ends with a non-zero exit code. *)
Theorem configuration_error_is_fatal :
  env !! "SSH_URL" = None
  \/ (exists url e, env !! "SSH_URL" = Some url /\ parseSshUrl url = inl e)
  \/ ((env !! "SSH_PRIVATE_KEY" = None \/ env !! "SSH_PRIVATE_KEY" = Some "")
      /\ exists e, readFileSync
                     (pathJoin [or_else (envVar env "HOME") (JStr "/root");
                                JStr ".ssh"; JStr "id_rsa"]) = inl e) ->
  exists e,
    configFromEnv = inl e
    /\ theMain = ([], Throw e)
    /\ List.filter connectionAttempt (fst theMain) = []
    /\ exitCode (snd theMain) = Some 1.
Proof.
  intros H.
  assert (Hc : exists e, configFromEnv = inl e).
  { unfold sshConnectionConfigFromEnv, requiredEnv.
    destruct H as [H | [(url & e & H & P) | (H & e & F)]].
    - rewrite H. eauto.
    - rewrite H, P. eauto.
    - destruct (env !! "SSH_URL") as [url|]; [|eauto].
      destruct (parseSshUrl url); [eauto|].
      unfold clientPrivateKeyFromEnv, envVar at 1.
      destruct H as [-> | ->]; simpl; rewrite F; eauto. }
  destruct Hc as [e He]. exists e.
  rewrite (main_config_error e He). auto.
Qed.

(** The configuration literal reads the environment at four variables, none
    of them the private key. *)
Lemma connectionConfigLiteral_env env1 env2 parsed key :
  (forall k, k <> "SSH_PRIVATE_KEY" -> env1 !! k = env2 !! k) ->
  connectionConfigLiteral env1 parsed key = connectionConfigLiteral env2 parsed key.
Proof.
  intros H. unfold connectionConfigLiteral, envVar.
  rewrite (H "USER"), (H "SSH_SERVER_PUBLIC_KEY"), (H "INSECURE_SKIP_VERIFY"),
    (H "TLS_SERVERNAME") by discriminate.
  reflexivity.
Qed.

(** The configuration read when SSH_PRIVATE_KEY is the non-empty [key]. *)
Lemma sshConnectionConfigFromEnv_key key cfg url :
  key <> "" ->
  sshConnectionConfigFromEnv (<["SSH_PRIVATE_KEY" := key]> env) parseSshUrl readFileSync pathJoin
  = inr (cfg, url) ->
  exists parsed,
    requiredEnv env "SSH_URL" = inr url /\ parseSshUrl url = inr parsed
    /\ cfg = connectionConfigLiteral (<["SSH_PRIVATE_KEY" := key]> env) parsed (JStr key).
Proof.
  intros Hk H.
  apply sshConnectionConfigFromEnv_inr in H as (parsed & k & Hu & Hp & Hkey & ->).
  exists parsed. unfold requiredEnv in *.
  rewrite lookup_insert_ne in Hu by discriminate. split; [exact Hu|]. split; [exact Hp|].
  unfold clientPrivateKeyFromEnv, envVar in Hkey. rewrite lookup_insert_eq in Hkey.
  simpl in Hkey. apply String.eqb_neq in Hk. rewrite Hk in Hkey. simpl in Hkey.
  now injection Hkey as <-.
Qed.

(** Two runs whose environments differ in SSH_PRIVATE_KEY alone log the
    same object when the derived public key is the same. *)
Lemma sshConfigLog_key_independent key1 key2 cfg1 url1 cfg2 url2 pk :
  key1 <> "" -> key2 <> "" ->
  sshConnectionConfigFromEnv (<["SSH_PRIVATE_KEY" := key1]> env) parseSshUrl readFileSync
    pathJoin = inr (cfg1, url1) ->
  sshConnectionConfigFromEnv (<["SSH_PRIVATE_KEY" := key2]> env) parseSshUrl readFileSync
    pathJoin = inr (cfg2, url2) ->
  sshConfigLog cfg1 pk = sshConfigLog cfg2 pk.
Proof.
  intros N1 N2 H1 H2.
  apply sshConnectionConfigFromEnv_key in H1 as (p1 & U1 & P1 & ->); [|exact N1].
  apply sshConnectionConfigFromEnv_key in H2 as (p2 & U2 & P2 & ->); [|exact N2].
  assert (url1 = url2) by congruence. subst url2.
  assert (p1 = p2) by congruence. subst p2.
  rewrite !sshConfigLog_literal. f_equal.
  apply connectionConfigLiteral_env. intros k Hk.
  now rewrite !lookup_insert_ne by congruence.
Qed.

(** The only debug line of [main] is the startup line. *)
Lemma main_debug_lines fmt args :
  In (Log Debug fmt args) (fst theMain) ->
  exists cfg url pk,
    configFromEnv = inr (cfg, url)
    /\ formatPublicKey (prop "clientPrivateKey" cfg) = inr pk
    /\ args = [JObj (sshConfigLog cfg pk)].
Proof.
  intros Hin.
  destruct configFromEnv as [e|[cfg url]] eqn:H.
  { rewrite (main_config_error e H) in Hin. destruct Hin. }
  destruct (formatPublicKey (prop "clientPrivateKey" cfg)) as [e|pk] eqn:K.
  { rewrite (main_key_error cfg url e H K) in Hin. destruct Hin. }
  exists cfg, url, pk. repeat split; auto.
  assert (Hs : In (Log Debug fmt args) (startupLog env cfg pk)).
  { destruct (checkOnly env argv) eqn:C.
    - destruct (format (checkConnection cfg)) as [e|doc] eqn:F.
      + rewrite (main_check_only_throw cfg url pk e H K C F) in Hin.
        simpl in Hin. apply in_app_or in Hin as [Hin|Hin]; [exact Hin|].
        in_absurd Hin.
      + destruct (format_is_object _ _ F) as [o ->].
        destruct (stringify_JObj o) as [text S].
        rewrite (main_check_only cfg url pk _ text H K C F S) in Hin.
        simpl in Hin. apply in_app_or in Hin as [Hin|Hin]; [exact Hin|].
        in_absurd Hin.
    - rewrite (main_steady cfg url pk H K C) in Hin.
      assert (Hp : In (Log Debug fmt args) (steadyPrefix env cfg pk) ->
                   In (Log Debug fmt args) (startupLog env cfg pk)).
      { unfold steadyPrefix. intros Hp.
        apply in_app_or in Hp as [Hp|Hp]; [exact Hp|]. in_absurd Hp. }
      destruct (createSshClient cfg); simpl in Hin.
      + apply in_app_or in Hin as [Hin|Hin]; [auto|].
        apply in_app_or in Hin as [Hin|Hin]; [|in_absurd Hin].
        unfold log in Hin. destruct (Z.leb _ _); in_absurd Hin.
      + auto.
      + apply in_app_or in Hin as [Hin|Hin]; [auto|].
        unfold logError in Hin. destruct (Z.leb _ _); in_absurd Hin. }
  destruct (startupLog_cases cfg pk) as [E|E]; rewrite E in Hs; simpl in Hs.
  + destruct Hs.
  + destruct Hs as [Hs|[]]. now injection Hs as _ <-.
Qed.

(** C10: the object given to the startup debug line never holds the private
    key. Its [clientPrivateKey] is the constant [REDACTED] for every
    configuration, and its [clientPublicKey] is what [formatPublicKey]
    derived. Two configurations, or two runs, that differ in the private key
    alone give the same logged object for the same derived public key, so
    the same [clientPrivateKey] field. Every debug line [main] writes is this
    one. *)
Theorem debug_log_redacts_private_key :
  (forall cfg pk,
      getProp "clientPrivateKey" (sshConfigLog cfg pk) = Some (JStr REDACTED)
      /\ getProp "clientPublicKey" (sshConfigLog cfg pk) = Some (JStr pk))
  /\ (forall parsed key1 key2 pk,
      sshConfigLog (connectionConfigLiteral env parsed key1) pk
      = sshConfigLog (connectionConfigLiteral env parsed key2) pk)
  /\ (forall key1 key2 cfg1 url1 cfg2 url2 pk,
      key1 <> "" -> key2 <> "" ->
      sshConnectionConfigFromEnv (<["SSH_PRIVATE_KEY" := key1]> env) parseSshUrl readFileSync
        pathJoin = inr (cfg1, url1) ->
      sshConnectionConfigFromEnv (<["SSH_PRIVATE_KEY" := key2]> env) parseSshUrl readFileSync
        pathJoin = inr (cfg2, url2) ->
      sshConfigLog cfg1 pk = sshConfigLog cfg2 pk)
  /\ (forall fmt args,
      In (Log Debug fmt args) (fst theMain) ->
      exists cfg url pk,
        configFromEnv = inr (cfg, url)
        /\ formatPublicKey (prop "clientPrivateKey" cfg) = inr pk
        /\ args = [JObj (sshConfigLog cfg pk)]
        /\ getProp "clientPrivateKey" (sshConfigLog cfg pk) = Some (JStr REDACTED)).
Proof.
  split; [|split; [|split]].
  - intros cfg pk. split.
    + apply sshConfigLog_clientPrivateKey.
    + apply sshConfigLog_clientPublicKey.
  - intros parsed key1 key2 pk. now rewrite !sshConfigLog_literal.
  - apply sshConfigLog_key_independent.
  - intros fmt args Hin.
    destruct (main_debug_lines fmt args Hin) as (cfg & url & pk & H & K & A).
    exists cfg, url, pk. auto using sshConfigLog_clientPrivateKey.
Qed.

(** Steady-state mode: when the awaited [createSshClient] does not end with
    a connected client, the process ends with exit code 1 and the reconciler
    is never wired to the docker client. *)
Lemma main_initial_connection_failure cfg url pk :
  configFromEnv = inr (cfg, url) ->
  formatPublicKey (prop "clientPrivateKey" cfg) = inr pk ->
  checkOnly env argv = false ->
  createSshClient cfg <> Connected ->
  exitCode (snd theMain) = Some 1
  /\ ~ In ListenToContainers (fst theMain).
Proof.
  intros H K C N. rewrite (main_steady cfg url pk H K C).
  assert (Hp : ~ In ListenToContainers (steadyPrefix env cfg pk)).
  { unfold steadyPrefix. intros Hin. apply in_app_or in Hin as [Hin|Hin].
    - destruct (startupLog_cases cfg pk) as [E|E]; rewrite E in Hin; in_absurd Hin.
    - in_absurd Hin. }
  destruct (createSshClient cfg) as [|e|e]; [congruence| |]; simpl; split; auto.
  intros Hin. apply in_app_or in Hin as [Hin|Hin]; [auto|].
  unfold logError in Hin. destruct (Z.leb _ _); in_absurd Hin.
Qed.

End MainFacts.



Lemma formatConnectionCheckResult_variants_witness :
  formatConnectionCheckResult Demo.formatPublicKey Demo.inspect
    (mkResult (Some "HOSTKEY") (Some Demo.refused) [])
  = inr (JObj [("unverifiedHostKey", JStr "ssh-rsa HOSTKEY")])
  /\ formatConnectionCheckResult Demo.formatPublicKey Demo.inspect
       (mkResult None (Some Demo.refused) [])
     = inr (JObj [("error", JStr "connect ECONNREFUSED"); ("stack", JUndefined);
                  ("details", JStr "Error: connect ECONNREFUSED")])
  /\ formatConnectionCheckResult Demo.formatPublicKey Demo.inspect (mkResult None None [])
     = inr (JObj []).
Proof.
  split; [|split].
  - destruct (formatConnectionCheckResult_variants Demo.formatPublicKey Demo.inspect
                (mkResult (Some "HOSTKEY") (Some Demo.refused) [])) as (H & _ & _).
    destruct (H "HOSTKEY" "ssh-rsa HOSTKEY") as [F _]; [reflexivity | reflexivity | exact F].
  - destruct (formatConnectionCheckResult_variants Demo.formatPublicKey Demo.inspect
                (mkResult None (Some Demo.refused) [])) as (_ & H & _).
    apply (H Demo.refused); reflexivity.
  - destruct (formatConnectionCheckResult_variants Demo.formatPublicKey Demo.inspect
                (mkResult None None [])) as (_ & _ & H).
    destruct H as [F _]; [reflexivity | reflexivity | exact F].
Defined.

(** Without SSH_PRIVATE_KEY and without a key file the demo process stops
    before it does anything. *)
Lemma configuration_error_is_fatal_witness :
  delete "SSH_PRIVATE_KEY" Demo.env !! "SSH_PRIVATE_KEY" = None
  /\ Demo.readFileSync "/root/.ssh/id_rsa"
     = inl (mkError "Error" "ENOENT: no such file or directory, open /root/.ssh/id_rsa" None)
  /\ exists e,
       Demo.mainWith (delete "SSH_PRIVATE_KEY" Demo.env) Demo.argvRun Demo.unverified
         Demo.connects = ([], Throw e)
       /\ exitCode (snd (Demo.mainWith (delete "SSH_PRIVATE_KEY" Demo.env) Demo.argvRun
                           Demo.unverified Demo.connects)) = Some 1.
Proof.
  split; [vm_compute; reflexivity|]. split; [reflexivity|].
  destruct (configuration_error_is_fatal (delete "SSH_PRIVATE_KEY" Demo.env) Demo.argvRun
              Posix Demo.parseSshUrl Demo.formatPublicKey Demo.readFileSync Demo.pathJoin
              Demo.inspect Demo.unverified Demo.connects) as (e & _ & M & _ & X).
  - right. right. split; [left; vm_compute; reflexivity|].
    eexists. vm_compute. reflexivity.
  - exists e. unfold Demo.mainWith. auto.
Defined.

(** With DEBUG set the demo process writes the line, with the key redacted. *)
Lemma debug_log_redacts_private_key_witness :
  In (Log Debug "ssh config: %j" [JObj (sshConfigLog Demo.config "ssh-rsa PRIVATE")])
     (fst (Demo.mainWith Demo.env Demo.argvRun Demo.unverified Demo.connects))
  /\ getProp "clientPrivateKey" (sshConfigLog Demo.config "ssh-rsa PRIVATE")
     = Some (JStr "*** REDACTED ***")
  /\ exists cfg url pk,
       sshConnectionConfigFromEnv Demo.env Demo.parseSshUrl Demo.readFileSync Demo.pathJoin
       = inr (cfg, url)
       /\ [JObj (sshConfigLog Demo.config "ssh-rsa PRIVATE")] = [JObj (sshConfigLog cfg pk)].
Proof.
  assert (Hin : In (Log Debug "ssh config: %j"
                      [JObj (sshConfigLog Demo.config "ssh-rsa PRIVATE")])
                   (fst (Demo.mainWith Demo.env Demo.argvRun Demo.unverified Demo.connects)))
    by (vm_compute; left; reflexivity).
  destruct (debug_log_redacts_private_key Demo.env Demo.argvRun Posix Demo.parseSshUrl
              Demo.formatPublicKey Demo.readFileSync Demo.pathJoin Demo.inspect
              Demo.unverified Demo.connects) as (H1 & _ & _ & H3).
  split; [exact Hin|]. split; [apply H1|].
  destruct (H3 _ _ Hin) as (cfg & url & pk & Hc & _ & Ha & _).
  exists cfg, url, pk. auto.
Defined.

(* ===================================================================== *)
(** ** JSON text has no line break                                        *)
(* ===================================================================== *)


Section NoLineBreak.

(** The character [c] is a line break: LF or CR. *)
Variable c : ascii.
Hypothesis c_break : c = LF \/ c = CR.

Lemma countChar_app s1 s2 : countChar c (s1 +:+ s2) = (countChar c s1 + countChar c s2)%nat.
Proof. induction s1 as [|a s1 IH]; simpl; [reflexivity|]. rewrite IH. lia. Qed.

Lemma countChar_escapeChar a : countChar c (escapeChar a) = 0%nat.
Proof.
  destruct c_break as [-> | ->];
    destruct a as [[] [] [] [] [] [] [] []]; reflexivity.
Qed.

Lemma countChar_escape s : countChar c (escape s) = 0%nat.
Proof.
  induction s as [|a s IH]; simpl; [reflexivity|].
  now rewrite countChar_app, countChar_escapeChar, IH.
Qed.

Lemma countChar_quote s : countChar c (quote s) = 0%nat.
Proof.
  unfold quote. cbn [countChar]. rewrite countChar_app, countChar_escape.
  destruct c_break as [-> | ->]; reflexivity.
Qed.

Lemma countChar_uint u : countChar c (NilEmpty.string_of_uint u) = 0%nat.
Proof.
  induction u; simpl; rewrite ?IHu; destruct c_break as [-> | ->]; reflexivity.
Qed.

Lemma countChar_numberToString z : countChar c (numberToString z) = 0%nat.
Proof.
  unfold numberToString, NilZero.string_of_int, NilZero.string_of_uint.
  destruct (Z.to_int z) as [u|u].
  - destruct u; try apply countChar_uint.
    destruct c_break as [-> | ->]; reflexivity.
  - cbn [countChar]. destruct u; rewrite ?countChar_uint;
      destruct c_break as [-> | ->]; reflexivity.
Qed.

Lemma countChar_join sep l :
  countChar c sep = 0%nat -> Forall (fun s => countChar c s = 0%nat) l ->
  countChar c (join sep l) = 0%nat.
Proof.
  intros Hsep H. induction H as [|s l Hs Hl IH]; [reflexivity|].
  destruct l as [|s' l]; [exact Hs|].
  change (join sep (s :: s' :: l)) with (s +:+ sep +:+ join sep (s' :: l)).
  rewrite !countChar_app, Hs, Hsep, IH. reflexivity.
Qed.

(** No text [JSON.stringify] returns holds the line break. *)
Lemma countChar_stringify v : forall text, stringify v = Some text -> countChar c text = 0%nat.
Proof.
  induction v as [| |b|z|s|items IH|props IH] using jsval_nested_ind;
    intros text; simpl; intros E; try discriminate; injection E as <-.
  - destruct c_break as [-> | ->]; reflexivity.
  - destruct b; destruct c_break as [-> | ->]; reflexivity.
  - apply countChar_numberToString.
  - apply countChar_quote.
  - rewrite !countChar_app, countChar_join.
    + destruct c_break as [-> | ->]; reflexivity.
    + destruct c_break as [-> | ->]; reflexivity.
    + induction IH as [|x l Hx Hl IHl]; constructor; [|exact IHl].
      destruct (stringify x) as [t|]; simpl; [now apply Hx|].
      destruct c_break as [-> | ->]; reflexivity.
  - rewrite !countChar_app, countChar_join.
    + destruct c_break as [-> | ->]; reflexivity.
    + destruct c_break as [-> | ->]; reflexivity.
    + induction IH as [|[k x] l Hx Hl IHl]; [constructor|].
      simpl in Hx. destruct (stringify x) as [t|]; [|exact IHl].
      constructor; [|exact IHl].
      rewrite !countChar_app, countChar_quote, (Hx t eq_refl).
      destruct c_break as [-> | ->]; reflexivity.
Qed.

End NoLineBreak.

(* ===================================================================== *)
(** ** The running process: publishing the tunnel state                   *)
(* ===================================================================== *)

Section SteadyFacts.

Variable env : gmap string string.
Variable os : platform.

Local Abbreviation step' := (step env os).
Local Abbreviation run' := (run env os).

Lemma run_snoc r ins i : run' r (ins ++ [i]) = step' (run' r ins) i.
Proof. unfold run. now rewrite fold_left_app. Qed.

Lemma lastPublished_snoc ins i :
  lastPublished (ins ++ [i])
  = match i with UpdateTunnelsDone s => Some s | _ => lastPublished ins end.
Proof. unfold lastPublished. now rewrite fold_left_app. Qed.

Lemma step_exited r i code : exited r = Some code -> step' r i = r.
Proof. intros H. unfold step. now rewrite H. Qed.

(** A step taken by a live process starts from a live process. *)
Lemma step_alive r i : exited (step' r i) = None -> exited r = None.
Proof.
  destruct (exited r) as [code|] eqn:E; [|reflexivity].
  rewrite (step_exited r i code E). congruence.
Qed.

Lemma step_UpdateTunnelsDone r s :
  exited r = None ->
  exists doc,
    stringify (JObj s) = Some doc
    /\ step' r (UpdateTunnelsDone s)
       = mkRunning (Some s) true []
           (if initResolved r then jobs r else (jobs r ++ thenWaiting r)%list)
           (out r ++ [Stdout doc; Stdout (EOL os)])%list (answers r) None.
Proof.
  intros H. destruct (stringify_JObj s) as [doc S]. exists doc. split; [exact S|].
  unfold step. now rewrite H, S.
Qed.

(** While the process lives, [state] is what the last completed cycle
    assigned, and [initPromise] is fulfilled exactly when there was one. *)
Lemma run_alive_inv ins :
  exited (run' started ins) = None ->
  state (run' started ins) = lastPublished ins
  /\ initResolved (run' started ins) = bool_decide (lastPublished ins <> None).
Proof.
  induction ins as [|i ins IH] using rev_ind; [intros _; split; reflexivity|].
  rewrite run_snoc, lastPublished_snoc. intros Hx.
  pose proof (step_alive _ _ Hx) as Ha. destruct (IH Ha) as [Hs Hr].
  destruct i as [s|c|c|e|e|a].
  - destruct (step_UpdateTunnelsDone _ s Ha) as (doc & _ & ->). split; reflexivity.
  - unfold step. rewrite Ha. destruct (initResolved _) eqn:E; simpl; split; congruence.
  - unfold step. rewrite Ha. destruct (bool_decide (c ∈ _)); simpl; split; congruence.
  - unfold step in Hx. rewrite Ha in Hx. discriminate.
  - unfold step in Hx. rewrite Ha in Hx. discriminate.
  - unfold step. rewrite Ha. simpl. split; congruence.
Qed.

(** Before the first cycle completes, no reaction is queued and nothing was
    answered. *)
Lemma run_pending_inv ins :
  (lastPublished ins = None -> initResolved (run' started ins) = false)
  /\ (initResolved (run' started ins) = false ->
      jobs (run' started ins) = [] /\ answers (run' started ins) = []).
Proof.
  induction ins as [|i ins IH] using rev_ind; [repeat split; reflexivity|].
  rewrite run_snoc, lastPublished_snoc. destruct IH as [IH1 IH2].
  set (r := run' started ins) in *.
  destruct (exited r) as [code|] eqn:Ha.
  - rewrite (step_exited r i code Ha). split; [|exact IH2].
    destruct i; auto. intros; discriminate.
  - destruct i as [s|c|c|e|e|a].
    + destruct (step_UpdateTunnelsDone r s Ha) as (doc & _ & ->).
      split; simpl; intros; discriminate.
    + unfold step. rewrite Ha. destruct (initResolved r) eqn:E; simpl.
      * split; [auto|]. intros; discriminate.
      * split; [auto|]. intros _. now apply IH2.
    + unfold step. rewrite Ha. destruct (bool_decide (c ∈ jobs r)) eqn:Hin; simpl; [|auto].
      split; [auto|]. intros Hr. destruct (IH2 Hr) as [Hj _].
      rewrite Hj in Hin. apply bool_decide_eq_true in Hin. inversion Hin.
    + unfold step. rewrite Ha. simpl. auto.
    + unfold step. rewrite Ha. simpl. auto.
    + unfold step. rewrite Ha. simpl. auto.
Qed.

(** C4: what [getSshState()] resolves to. Nothing is answered before the
    first reconciliation cycle completed; an answer given is the state of
    the cycle that completed last; a call made after a cycle completed is
    answered with that state, and a call made before is answered when the
    first cycle completes. *)
Theorem getSshState_after_first_cycle (ins : list input) :
  (lastPublished ins = None -> answers (run' started ins) = [])
  /\ (forall c v,
      answers (step' (run' started ins) (RunReaction c))
      = (answers (run' started ins) ++ [(c, v)])%list ->
      exists s, v = Some s /\ lastPublished ins = Some s)
  /\ (forall c s,
      exited (run' started ins) = None -> lastPublished ins = Some s ->
      answers (run' (run' started ins) [GetSshState c; RunReaction c])
      = (answers (run' started ins) ++ [(c, Some s)])%list)
  /\ (forall c s,
      exited (run' started ins) = None -> lastPublished ins = None ->
      answers (run' (run' started ins) [GetSshState c]) = []
      /\ answers (run' (run' started ins) [GetSshState c; UpdateTunnelsDone s; RunReaction c])
         = [(c, Some s)]).
Proof.
  destruct (run_pending_inv ins) as [P1 P2].
  set (r := run' started ins) in *.
  split; [|split; [|split]].
  - intros H. now apply P2, P1.
  - intros c v H.
    destruct (exited r) as [code|] eqn:Ha.
    { rewrite (step_exited r _ code Ha) in H.
      apply (f_equal (@length _)) in H. rewrite length_app in H. simpl in H. lia. }
    destruct (run_alive_inv ins Ha) as [Hs Hr]. fold r in Hs, Hr.
    unfold step in H. rewrite Ha in H.
    destruct (bool_decide (c ∈ jobs r)) eqn:Hin.
    + simpl in H. apply app_inv_head in H. injection H as <-.
      destruct (initResolved r) eqn:E.
      * symmetry in Hr. apply bool_decide_eq_true in Hr.
        destruct (lastPublished ins) as [s|] eqn:L; [|congruence].
        exists s. auto.
      * destruct (P2 eq_refl) as [Hj _]. rewrite Hj in Hin.
        apply bool_decide_eq_true in Hin. inversion Hin.
    + apply (f_equal (@length _)) in H. rewrite length_app in H. simpl in H. lia.
  - intros c s Ha L.
    destruct (run_alive_inv ins Ha) as [Hs Hr]. fold r in Hs, Hr.
    rewrite L in Hs, Hr. simpl. unfold step at 2. rewrite Ha, Hr. simpl.
    unfold step. simpl.
    rewrite bool_decide_eq_true_2
      by (apply list_elem_of_In, in_or_app; right; left; reflexivity).
    simpl. now rewrite Hs.
  - intros c s Ha L.
    destruct (run_alive_inv ins Ha) as [Hs Hr]. fold r in Hs, Hr.
    rewrite L in Hs, Hr. destruct (P2 (P1 L)) as [Hj Hans].
    assert (E1 : step' r (GetSshState c)
                 = mkRunning (state r) false (thenWaiting r ++ [c])%list (jobs r) (out r)
                             (answers r) None).
    { unfold step. now rewrite Ha, Hr. }
    split; [simpl; now rewrite E1|].
    simpl. rewrite E1.
    destruct (step_UpdateTunnelsDone
                (mkRunning (state r) false (thenWaiting r ++ [c])%list (jobs r) (out r)
                           (answers r) None) s eq_refl) as (doc & _ & ->).
    unfold step. simpl.
    rewrite bool_decide_eq_true_2
      by (rewrite Hj; simpl; apply list_elem_of_In, in_or_app; right; left; reflexivity).
    simpl. now rewrite Hans.
Qed.

(** C5: each completed reconciliation cycle writes the full new state to
    standard output as one JSON document followed by the line end, and this
    is exactly one line: the document holds no line break. The state is at
    the same time the one the status server reads. *)
Theorem state_change_written_as_one_line (ins : list input) (s : SshState) :
  exited (run' started ins) = None ->
  exists doc,
    stringify (JObj s) = Some doc
    /\ out (run' started (ins ++ [UpdateTunnelsDone s]))
       = (out (run' started ins) ++ [Stdout doc; Stdout (EOL os)])%list
    /\ stdoutOf (out (run' started (ins ++ [UpdateTunnelsDone s])))
       = (stdoutOf (out (run' started ins)) ++ [doc; EOL os])%list
    /\ countChar LF doc = 0%nat /\ countChar CR doc = 0%nat
    /\ countChar LF (doc +:+ EOL os) = 1%nat
    /\ state (run' started (ins ++ [UpdateTunnelsDone s])) = Some s
    /\ exited (run' started (ins ++ [UpdateTunnelsDone s])) = None.
Proof.
  intros Ha. rewrite run_snoc.
  destruct (step_UpdateTunnelsDone _ s Ha) as (doc & S & ->).
  exists doc. simpl.
  pose proof (countChar_stringify LF (or_introl eq_refl) _ _ S) as HLF.
  pose proof (countChar_stringify CR (or_intror eq_refl) _ _ S) as HCR.
  repeat split; auto.
  - now rewrite stdoutOf_app.
  - rewrite countChar_app, HLF; auto. destruct os; reflexivity.
Qed.

End SteadyFacts.

(** A call made before the first cycle is answered after it, with its state;
    a later cycle's state is what the next call gets. *)
Lemma getSshState_after_first_cycle_witness :
  answers (run Demo.env Posix started [GetSshState 1; RunReaction 1]) = []
  /\ answers (run Demo.env Posix started
                [GetSshState 1; UpdateTunnelsDone [("a", JStr "active")]; RunReaction 1;
                 UpdateTunnelsDone []; GetSshState 2; RunReaction 2])
     = [(1%nat, Some [("a", JStr "active")]); (2%nat, Some [])]
  /\ exists s,
       Some ([] : SshState) = Some s
       /\ lastPublished [GetSshState 1; UpdateTunnelsDone [("a", JStr "active")]; RunReaction 1;
                         UpdateTunnelsDone []; GetSshState 2] = Some s.
Proof.
  split; [reflexivity|]. split; [reflexivity|].
  destruct (getSshState_after_first_cycle Demo.env Posix
              [GetSshState 1; UpdateTunnelsDone [("a", JStr "active")]; RunReaction 1;
               UpdateTunnelsDone []; GetSshState 2]) as (_ & H & _).
  apply (H 2%nat (Some [])). reflexivity.
Defined.

Lemma state_change_written_as_one_line_witness :
  exited (run Demo.env Posix started [Listening ":::3000"]) = None
  /\ stdoutOf (out (run Demo.env Posix started
                      [Listening ":::3000"; UpdateTunnelsDone [("a", JStr "active")]]))
     = ["{" +:+ quote "a" +:+ ":" +:+ quote "active" +:+ "}"; EOL Posix]
  /\ exists doc,
       stringify (JObj [("a", JStr "active")]) = Some doc
       /\ countChar LF (doc +:+ EOL Posix) = 1%nat.
Proof.
  split; [reflexivity|]. split; [reflexivity|].
  destruct (state_change_written_as_one_line Demo.env Posix [Listening ":::3000"]
              [("a", JStr "active")] eq_refl) as (doc & S & _ & _ & _ & _ & L & _).
  exists doc. auto.
Defined.

(* ===================================================================== *)
(** ** The host-key policy                                                *)
(* ===================================================================== *)

Section CheckerFacts.

Import Checker.

Lemma existsb_eqb_In key pinned : existsb (String.eqb key) pinned = true <-> In key pinned.
Proof.
  rewrite existsb_exists. split.
  - intros (x & Hx & E). apply String.eqb_eq in E. now subst.
  - intros H. exists key. split; [exact H|apply String.eqb_refl].
Qed.

Lemma verifyHostKey_pinned pinned skip key :
  In key pinned -> verifyHostKey pinned skip key = Ok.
Proof. intros H. unfold verifyHostKey. apply existsb_eqb_In in H. now rewrite H. Qed.

Lemma verifyHostKey_skip skip key :
  verifyHostKey [] skip key = if skip then Ok else UnverifiedHostKey key.
Proof. reflexivity. Qed.

Lemma verifyHostKey_unverified pinned skip key :
  ~ In key pinned -> ~ (pinned = [] /\ skip = true) ->
  verifyHostKey pinned skip key = UnverifiedHostKey key.
Proof.
  intros Hn Hs. unfold verifyHostKey.
  destruct (existsb (String.eqb key) pinned) eqn:E.
  - apply existsb_eqb_In in E. contradiction.
  - destruct pinned as [|k pinned]; simpl; [|reflexivity].
    destruct skip; [|reflexivity]. exfalso. apply Hs. split; reflexivity.
Qed.

(** C1: the host-key policy of the connection check. A presented key that
    is among the pinned keys gives [Ok]; with no pinned key and
    insecure-skip-verify set, any key gives [Ok]; every other case gives
    [UnverifiedHostKey] carrying the presented key. With the one pinned key
    [K]: presenting [K] gives [Ok], presenting another key with
    insecure-skip-verify off gives [UnverifiedHostKey] of that key. *)
Theorem host_key_policy (connectionConfig : jsobj) (key : string) :
  (In key (knownServerPublicKeys connectionConfig) ->
   checkConnection connectionConfig (Presented key) = Ok)
  /\ (knownServerPublicKeys connectionConfig = [] ->
      insecureSkipVerify connectionConfig = true ->
      checkConnection connectionConfig (Presented key) = Ok)
  /\ (~ In key (knownServerPublicKeys connectionConfig) ->
      ~ (knownServerPublicKeys connectionConfig = []
         /\ insecureSkipVerify connectionConfig = true) ->
      checkConnection connectionConfig (Presented key) = UnverifiedHostKey key
      /\ unverifiedHostKey (checkConnection connectionConfig (Presented key)) = Some key)
  /\ (forall K,
      knownServerPublicKeys connectionConfig = [K] ->
      (key = K -> checkConnection connectionConfig (Presented key) = Ok)
      /\ (key <> K -> insecureSkipVerify connectionConfig = false ->
          checkConnection connectionConfig (Presented key) = UnverifiedHostKey key)).
Proof.
  unfold checkConnection. split; [|split; [|split]].
  - apply verifyHostKey_pinned.
  - intros -> ->. reflexivity.
  - intros Hn Hs. now rewrite verifyHostKey_unverified.
  - intros K ->. split.
    + intros ->. apply verifyHostKey_pinned. now left.
    + intros Hne _. apply verifyHostKey_unverified.
      * intros [E|[]]. congruence.
      * intros [E _]. discriminate.
Qed.

End CheckerFacts.

(** The demo configuration pins ["K"] and leaves verification on: a server
    presenting another key is reported with that key. *)
Lemma host_key_policy_witness :
  knownServerPublicKeys Demo.config = ["K"]
  /\ insecureSkipVerify Demo.config = false
  /\ Checker.checkConnection Demo.config (Checker.Presented "K") = Checker.Ok
  /\ Checker.checkConnection Demo.config (Checker.Presented "HOSTKEY")
     = Checker.UnverifiedHostKey "HOSTKEY".
Proof.
  assert (Hk : knownServerPublicKeys Demo.config = ["K"]) by reflexivity.
  assert (Hs : insecureSkipVerify Demo.config = false) by reflexivity.
  split; [exact Hk|]. split; [exact Hs|]. split.
  - destruct (host_key_policy Demo.config "K") as (_ & _ & _ & H).
    destruct (H "K" Hk) as [Hok _]. now apply Hok.
  - destruct (host_key_policy Demo.config "HOSTKEY") as (_ & _ & _ & H).
    destruct (H "K" Hk) as [_ Hun]. apply Hun; [discriminate|exact Hs].
Defined.

(* ===================================================================== *)
(** ** Connection failures: at the start and later                        *)
(* ===================================================================== *)

Section ManagerFacts.

Import Manager.

Variable env : gmap string string.
Variable os : platform.
Variable baseDelay : Z.
Variable maxDelay : Z.

Local Abbreviation step' := (Manager.step baseDelay maxDelay).
Local Abbreviation steps' := (Manager.steps baseDelay maxDelay).
Local Abbreviation backoff' := (Manager.backoff baseDelay maxDelay).

Lemma step_up p ev : up p -> up (fst (step' p ev)) /\ inputs (snd (step' p ev)) = [].
Proof. destruct p, ev; simpl; intros H; try contradiction; auto. Qed.

Lemma inputs_app a b : inputs (a ++ b) = (inputs a ++ inputs b)%list.
Proof. unfold inputs. apply omap_app. Qed.

(** Once the connection was up, nothing the network does makes the manager
    call [onError]. *)
Lemma steps_up evs : forall p,
  up p -> up (fst (steps' p evs)) /\ inputs (snd (steps' p evs)) = [].
Proof.
  induction evs as [|ev evs IH]; intros p Hp; simpl; [auto|].
  destruct (step_up p ev Hp) as [Hu Hi].
  destruct (step' p ev) as [p' acts]. simpl in Hu, Hi.
  destruct (IH p' Hu) as [Hu' Hi'].
  destruct (steps' p' evs) as [p'' acts']. simpl in *.
  split; [exact Hu'|]. now rewrite inputs_app, Hi, Hi'.
Qed.

(** Failed attempts after a disconnect: each one schedules the next, and
    the manager is still reconnecting after any number of them. *)
Lemma steps_failures (e : JsError) (jitters : list Z) : forall n,
  steps' (Reconnecting n) (List.map (HandshakeFailed e) jitters)
  = (Reconnecting (n + length jitters), retries baseDelay maxDelay n jitters).
Proof.
  induction jitters as [|j js IH]; intros n; simpl.
  - now rewrite Nat.add_0_r.
  - rewrite IH. simpl. f_equal. f_equal. lia.
Qed.

Lemma backoff_bounded n j : backoff' n j <= maxDelay.
Proof. unfold backoff. lia. Qed.

Lemma backoff_doubles n :
  baseDelay * 2 ^ Z.of_nat (S n) <= maxDelay ->
  0 <= baseDelay ->
  backoff' (S n) 0 = 2 * backoff' n 0.
Proof.
  unfold backoff. rewrite Nat2Z.inj_succ, Z.pow_succ_r by lia. intros H B.
  assert (0 <= 2 ^ Z.of_nat n) by (apply Z.pow_nonneg; lia).
  assert (0 <= baseDelay * 2 ^ Z.of_nat n) by nia.
  lia.
Qed.

End ManagerFacts.

(** C7: in steady-state mode a failure of the initial SSH connection ends
    the process with exit code 1; the [onError] handler main.ts passes to
    the client ends the process with that code whenever it is called. Once
    the connection was established, a disconnect is not fatal: the manager
    starts reconnecting, every failed attempt schedules the next one with a
    delay that doubles up to the maximum retry interval, and whatever the
    network does the manager does not call [onError], so the process keeps
    running. *)
Theorem initial_failure_fatal_later_disconnect_recovered
    (env : gmap string string) (argv : list string) (os : platform)
    (parseSshUrl : string -> JsError + jsobj) (formatPublicKey : jsval -> JsError + string)
    (readFileSync : string -> JsError + string) (pathJoin : list jsval -> string)
    (inspect : JsError -> string) (checkConnection : jsobj -> ConnectionCheckResult)
    (baseDelay maxDelay : Z) :
  (forall createSshClient cfg url pk,
      sshConnectionConfigFromEnv env parseSshUrl readFileSync pathJoin = inr (cfg, url) ->
      formatPublicKey (prop "clientPrivateKey" cfg) = inr pk ->
      checkOnly env argv = false ->
      createSshClient cfg <> Connected ->
      exitCode (snd (main env argv os parseSshUrl formatPublicKey readFileSync pathJoin inspect
                          checkConnection createSshClient))
      = Some 1)
  /\ (forall e j,
      Manager.start baseDelay maxDelay (Manager.HandshakeFailed e j) = OnError e
      /\ Manager.start baseDelay maxDelay (Manager.Disconnected e j) = OnError e
      /\ Manager.start baseDelay maxDelay Manager.HandshakeOk = Connected)
  /\ (forall r e,
      exited r = None -> exited (step env os r (SshClientError e)) = Some 1)
  /\ (forall evs r,
      exited r = None ->
      Manager.up (fst (Manager.steps baseDelay maxDelay Manager.Established evs))
      /\ exited (run env os r
                   (Manager.inputs (snd (Manager.steps baseDelay maxDelay
                                           Manager.Established evs)))) = None)
  /\ (forall e j jitters,
      Manager.steps baseDelay maxDelay Manager.Established
        (Manager.Disconnected e j :: List.map (Manager.HandshakeFailed e) jitters)
      = (Manager.Reconnecting (length jitters),
         Manager.Reconnect 0 (Manager.backoff baseDelay maxDelay 0 j)
           :: Manager.retries baseDelay maxDelay 0 jitters))
  /\ (forall n, Manager.step baseDelay maxDelay (Manager.Reconnecting n) Manager.HandshakeOk
                = (Manager.Established, []))
  /\ (forall n j, Manager.backoff baseDelay maxDelay n j <= maxDelay)
  /\ (forall n, 0 <= baseDelay -> baseDelay * 2 ^ Z.of_nat (S n) <= maxDelay ->
                Manager.backoff baseDelay maxDelay (S n) 0
                = 2 * Manager.backoff baseDelay maxDelay n 0).
Proof.
  split; [|split; [|split; [|split; [|split; [|split; [|split]]]]]].
  - intros createSshClient cfg url pk H K C F.
    eapply main_initial_connection_failure; eauto.
  - intros e j. repeat split.
  - intros r e Ha. unfold step. now rewrite Ha.
  - intros evs r Ha.
    destruct (steps_up baseDelay maxDelay evs Manager.Established I) as [Hu Hi].
    split; [exact Hu|]. now rewrite Hi.
  - intros e j jitters. simpl. now rewrite steps_failures.
  - reflexivity.
  - apply backoff_bounded.
  - intros n B H. now apply backoff_doubles.
Qed.

(** The demo process when the first handshake is refused, and the manager
    through a disconnect and three failed attempts (base 1000, maximum
    5000). *)
Lemma initial_failure_fatal_later_disconnect_recovered_witness :
  checkOnly Demo.env Demo.argvRun = false
  /\ exitCode (snd (Demo.mainWith Demo.env Demo.argvRun Demo.unverified
                      (fun _ => Manager.start 1000 5000 (Manager.HandshakeFailed Demo.refused 0))))
     = Some 1
  /\ Manager.steps 1000 5000 Manager.Established
       (Manager.Disconnected Demo.refused 0
          :: List.map (Manager.HandshakeFailed Demo.refused) [0; 0; 0])
     = (Manager.Reconnecting 3,
        [Manager.Reconnect 0 1000; Manager.Reconnect 1 2000; Manager.Reconnect 2 4000;
         Manager.Reconnect 3 5000])
  /\ Manager.backoff 1000 5000 2 0 = 2 * Manager.backoff 1000 5000 1 0.
Proof.
  assert (C : checkOnly Demo.env Demo.argvRun = false) by (vm_compute; reflexivity).
  destruct (initial_failure_fatal_later_disconnect_recovered Demo.env Demo.argvRun Posix
              Demo.parseSshUrl Demo.formatPublicKey Demo.readFileSync Demo.pathJoin
              Demo.inspect Demo.unverified 1000 5000) as (Ha & _ & _ & _ & Hc & _ & _ & Hd).
  split; [exact C|]. split; [|split].
  - apply (Ha (fun _ => Manager.start 1000 5000 (Manager.HandshakeFailed Demo.refused 0))
              Demo.config Demo.sshUrl "ssh-rsa PRIVATE");
      [vm_compute; reflexivity | vm_compute; reflexivity | exact C | discriminate].
  - rewrite (Hc Demo.refused 0 [0; 0; 0]). vm_compute. reflexivity.
  - apply (Hd 1%nat); vm_compute; discriminate.
Defined.

(* ===================================================================== *)
(** ** More about the configuration object                                *)
(* ===================================================================== *)

Section ConfigFields.

Variable env : gmap string string.
Variable parseSshUrl : string -> JsError + jsobj.
Variable readFileSync : string -> JsError + string.
Variable pathJoin : list jsval -> string.

Local Abbreviation configFromEnv :=
  (sshConnectionConfigFromEnv env parseSshUrl readFileSync pathJoin).

Lemma literal_username parsed key :
  getProp "username" (connectionConfigLiteral env parsed key)
  = Some (nullish (envVar env "USER") (JStr "foo")).
Proof.
  unfold connectionConfigLiteral, objectLiteral. cbn [fold_left define].
  now literal_lookup.
Qed.

Lemma literal_tlsServerName parsed key :
  getProp "tlsServerName" (connectionConfigLiteral env parsed key)
  = Some (or_else (envVar env "TLS_SERVERNAME") JUndefined).
Proof.
  unfold connectionConfigLiteral, objectLiteral. cbn [fold_left define].
  now literal_lookup.
Qed.

(** X1: [username] is USER whenever that variable is set, the empty string
    included ([??] only replaces a missing value), and ["foo"] when it is
    unset; [tlsServerName] is TLS_SERVERNAME when that is a non-empty string
    and [undefined] otherwise ([||] replaces the empty string too). *)
Theorem username_and_tlsServerName_defaults cfg url :
  configFromEnv = inr (cfg, url) ->
  getProp "username" cfg
  = Some (JStr (match env !! "USER" with Some u => u | None => "foo" end))
  /\ getProp "tlsServerName" cfg
     = Some (match env !! "TLS_SERVERNAME" with
             | Some s => if String.eqb s "" then JUndefined else JStr s
             | None => JUndefined
             end).
Proof.
  intros H. apply sshConnectionConfigFromEnv_inr in H as (parsed & key & _ & _ & _ & ->).
  rewrite literal_username, literal_tlsServerName. unfold envVar, or_else.
  split.
  - now destruct (env !! "USER").
  - destruct (env !! "TLS_SERVERNAME") as [s|]; simpl; [|reflexivity].
    now destruct (String.eqb s "").
Qed.

(** The private key [sshConnectionConfigFromEnv] settles on. *)
Lemma clientPrivateKeyFromEnv_cases key :
  clientPrivateKeyFromEnv env readFileSync pathJoin = inr key ->
  (exists k, env !! "SSH_PRIVATE_KEY" = Some k /\ k <> "" /\ key = JStr k)
  \/ ((env !! "SSH_PRIVATE_KEY" = None \/ env !! "SSH_PRIVATE_KEY" = Some "")
      /\ exists k,
           readFileSync
             (pathJoin [JStr (match env !! "HOME" with
                              | Some h => if String.eqb h "" then "/root" else h
                              | None => "/root"
                              end); JStr ".ssh"; JStr "id_rsa"]) = inr k
           /\ key = JStr k).
Proof.
  unfold clientPrivateKeyFromEnv.
  destruct (truthy (envVar env "SSH_PRIVATE_KEY")) eqn:T.
  - intros [= <-]. left. apply truthy_envVar in T as (k & Hk & Hne).
    exists k. unfold envVar. now rewrite Hk.
  - intros H. right. split.
    + unfold envVar in T. destruct (env !! "SSH_PRIVATE_KEY") as [k|]; [|auto].
      simpl in T. apply negb_false_iff, String.eqb_eq in T. subst. auto.
    + assert (Hh : or_else (envVar env "HOME") (JStr "/root")
                   = JStr (match env !! "HOME" with
                           | Some h => if String.eqb h "" then "/root" else h
                           | None => "/root"
                           end)).
      { unfold or_else, envVar. destruct (env !! "HOME") as [h|]; simpl; [|reflexivity].
        now destruct (String.eqb h ""). }
      rewrite Hh in H.
      destruct (readFileSync _) as [e|k]; [discriminate|].
      injection H as <-. eauto.
Qed.

(** X2: where the client private key comes from. A non-empty
    SSH_PRIVATE_KEY is the key; otherwise the key is the content of
    [.ssh/id_rsa] under HOME, or under [/root] when HOME is unset or empty.
    The configuration object carries that key under [clientPrivateKey],
    whatever the parsed URL holds. *)
Theorem clientPrivateKey_source cfg url :
  configFromEnv = inr (cfg, url) ->
  exists k,
    getProp "clientPrivateKey" cfg = Some (JStr k)
    /\ ((env !! "SSH_PRIVATE_KEY" = Some k /\ k <> "")
        \/ ((env !! "SSH_PRIVATE_KEY" = None \/ env !! "SSH_PRIVATE_KEY" = Some "")
            /\ readFileSync
                 (pathJoin [JStr (match env !! "HOME" with
                                  | Some h => if String.eqb h "" then "/root" else h
                                  | None => "/root"
                                  end); JStr ".ssh"; JStr "id_rsa"]) = inr k)).
Proof.
  intros H. apply sshConnectionConfigFromEnv_inr in H as (parsed & key & _ & _ & Hk & ->).
  rewrite literal_clientPrivateKey.
  apply clientPrivateKeyFromEnv_cases in Hk as [(k & E & N & ->) | (E & k & F & ->)];
    exists k; split; auto.
Qed.

(** X3: the properties of the parsed URL reach the configuration unchanged,
    except that the five properties the literal sets itself always win: for
    one of those names the configuration's value does not depend on what
    [parseSshUrl] returned, for any other name it is the parsed URL's. *)
Theorem parsed_url_cannot_override parsed key k :
  (In k configFields ->
   forall parsed',
     getProp k (connectionConfigLiteral env parsed key)
     = getProp k (connectionConfigLiteral env parsed' key))
  /\ (~ In k configFields ->
      getProp k (connectionConfigLiteral env parsed key)
      = getProp k (objectLiteral [Spread parsed])
      /\ (uniqueKeys parsed = true ->
          getProp k (connectionConfigLiteral env parsed key) = getProp k parsed)).
Proof.
  split.
  - intros Hin parsed'. unfold connectionConfigLiteral, objectLiteral.
    cbn [fold_left define]. simpl in Hin.
    destruct Hin as [<-|[<-|[<-|[<-|[<-|[]]]]]]; now literal_lookup.
  - intros Hn.
    assert (E : getProp k (connectionConfigLiteral env parsed key)
                = getProp k (objectLiteral [Spread parsed])).
    { unfold connectionConfigLiteral, objectLiteral. cbn [fold_left define].
      rewrite !getProp_setProp_ne; [reflexivity|..];
        intros <-; apply Hn; simpl; auto 10. }
    split; [exact E|]. intros U. now rewrite E, spread_unique.
Qed.

End ConfigFields.

(** X4: with a non-empty SSH_PRIVATE_KEY the key file plays no part: the
    configuration read is the same whatever the file system holds and
    however paths are joined. *)
Theorem env_key_ignores_key_file
    (env : gmap string string) (parseSshUrl : string -> JsError + jsobj)
    (readFileSync readFileSync' : string -> JsError + string)
    (pathJoin pathJoin' : list jsval -> string) (k : string) :
  env !! "SSH_PRIVATE_KEY" = Some k -> k <> "" ->
  sshConnectionConfigFromEnv env parseSshUrl readFileSync pathJoin
  = sshConnectionConfigFromEnv env parseSshUrl readFileSync' pathJoin'.
Proof.
  intros E N. unfold sshConnectionConfigFromEnv, clientPrivateKeyFromEnv.
  assert (T : truthy (envVar env "SSH_PRIVATE_KEY") = true)
    by (apply truthy_envVar; eauto).
  now rewrite T.
Qed.

(* ===================================================================== *)
(** ** More about the runs of [main]                                      *)
(* ===================================================================== *)

Section MainRuns.

Variable env : gmap string string.
Variable argv : list string.
Variable os : platform.
Variable parseSshUrl : string -> JsError + jsobj.
Variable formatPublicKey : jsval -> JsError + string.
Variable readFileSync : string -> JsError + string.
Variable pathJoin : list jsval -> string.
Variable inspect : JsError -> string.
Variable checkConnection : jsobj -> ConnectionCheckResult.
Variable createSshClient : jsobj -> sshStart.

Local Abbreviation configFromEnv :=
  (sshConnectionConfigFromEnv env parseSshUrl readFileSync pathJoin).
Local Abbreviation theMain :=
  (main env argv os parseSshUrl formatPublicKey readFileSync pathJoin inspect
        checkConnection createSshClient).
Local Abbreviation format := (formatConnectionCheckResult formatPublicKey inspect).

(** [main] in full, once the configuration was read and the public key
    derived. *)
Lemma main_eq cfg url pk :
  configFromEnv = inr (cfg, url) ->
  formatPublicKey (prop "clientPrivateKey" cfg) = inr pk ->
  theMain =
    if checkOnly env argv then
      match format (checkConnection cfg) with
      | inl e => ((startupLog env cfg pk ++ [CheckConnection cfg])%list, Throw e)
      | inr doc =>
          ((startupLog env cfg pk
            ++ [CheckConnection cfg; Stdout (default "" (stringify doc)); Stdout (EOL os)])%list,
           Exit 0)
      end
    else
      match createSshClient cfg with
      | Rejected e => (steadyPrefix env cfg pk, Throw e)
      | OnError e => ((steadyPrefix env cfg pk ++ fst (logError env e))%list, Exit 1)
      | Connected =>
          ((steadyPrefix env cfg pk
            ++ fst (log env Info "ssh client connected to %j" [JStr url])
            ++ [ListenToContainers; CreateWebServer;
                Listen (nullish (envVar env "PORT") (JNum 3000))])%list,
           Return tt)
      end.
Proof.
  intros H K. destruct (checkOnly env argv) eqn:C.
  - destruct (format (checkConnection cfg)) as [e|doc] eqn:F.
    + now apply main_check_only_throw with (url := url).
    + destruct (format_is_object _ _ _ _ F) as [o ->].
      destruct (stringify_JObj o) as [text S]. rewrite S. simpl default.
      now apply main_check_only with (url := url) (doc := JObj o).
  - now apply main_steady.
Qed.

(** Every error is logged, whatever the level of the logger. *)
Lemma logError_always e : fst (logError env e) = [LogError e].
Proof.
  unfold logError, logLevel. now destruct (truthy (envVar env "DEBUG")).
Qed.

(** So is every line at level [info]. *)
Lemma log_info_always fmt args : fst (log env Info fmt args) = [Log Info fmt args].
Proof.
  unfold log, logLevel. now destruct (truthy (envVar env "DEBUG")).
Qed.

Lemma startupLog_debug cfg pk :
  startupLog env cfg pk
  = if truthy (envVar env "DEBUG")
    then [Log Debug "ssh config: %j" [JObj (sshConfigLog cfg pk)]]
    else [].
Proof.
  unfold startupLog, log, logLevel. now destruct (truthy (envVar env "DEBUG")).
Qed.

(** X5: the startup debug line is written exactly when DEBUG is a non-empty
    string, in check-only mode as in steady-state mode; the line at level
    [info] that reports the connected client is written either way. *)
Theorem debug_line_iff_DEBUG cfg url pk :
  configFromEnv = inr (cfg, url) ->
  formatPublicKey (prop "clientPrivateKey" cfg) = inr pk ->
  (In (Log Debug "ssh config: %j" [JObj (sshConfigLog cfg pk)]) (fst theMain)
   <-> exists s, env !! "DEBUG" = Some s /\ s <> "")
  /\ (checkOnly env argv = false -> createSshClient cfg = Connected ->
      In (Log Info "ssh client connected to %j" [JStr url]) (fst theMain)).
Proof.
  intros H K. rewrite (main_eq cfg url pk H K), <- truthy_envVar. split.
  - split.
    + intros Hin.
      assert (Hs : In (Log Debug "ssh config: %j" [JObj (sshConfigLog cfg pk)])
                      (startupLog env cfg pk)).
      { destruct (checkOnly env argv).
        - destruct (format (checkConnection cfg)); simpl in Hin;
            apply in_app_or in Hin as [Hin|Hin]; auto; in_absurd Hin.
        - unfold steadyPrefix in Hin.
          destruct (createSshClient cfg); simpl in Hin;
            rewrite ?logError_always, ?log_info_always in Hin;
            repeat (apply in_app_or in Hin as [Hin|Hin]; auto);
            in_absurd Hin. }
      rewrite startupLog_debug in Hs.
      destruct (truthy (envVar env "DEBUG")); [reflexivity|destruct Hs].
    + intros T.
      assert (Hs : In (Log Debug "ssh config: %j" [JObj (sshConfigLog cfg pk)])
                      (startupLog env cfg pk))
        by (rewrite startupLog_debug, T; now left).
      unfold steadyPrefix.
      destruct (checkOnly env argv);
        [destruct (format (checkConnection cfg))|destruct (createSshClient cfg)];
        simpl; repeat (apply in_or_app; left); exact Hs.
  - intros -> ->. simpl. rewrite log_info_always.
    apply in_or_app. right. now left.
Qed.

(** X6: what check-only mode writes is exactly one line: the JSON text of
    the rendered result holds no line feed and no carriage return, and the
    line end follows it. *)
Theorem check_only_output_is_one_line cfg url pk :
  configFromEnv = inr (cfg, url) ->
  formatPublicKey (prop "clientPrivateKey" cfg) = inr pk ->
  checkOnly env argv = true ->
  renderable formatPublicKey (checkConnection cfg) = true ->
  exists text,
    stdoutOf (fst theMain) = [text; EOL os]
    /\ countChar LF text = 0%nat
    /\ countChar CR text = 0%nat
    /\ countChar LF (text +:+ EOL os) = 1%nat.
Proof.
  intros H K C R. rewrite (main_eq cfg url pk H K), C.
  destruct (format_renderable formatPublicKey inspect _ R) as [doc F]. rewrite F.
  destruct (format_is_object _ _ _ _ F) as [o ->].
  destruct (stringify_JObj o) as [text S]. rewrite S. simpl default.
  destruct (startupLog_quiet env cfg pk) as (_ & _ & _ & Q).
  pose proof (countChar_stringify LF (or_introl eq_refl) _ _ S) as HLF.
  pose proof (countChar_stringify CR (or_intror eq_refl) _ _ S) as HCR.
  exists text. simpl fst. rewrite stdoutOf_app, Q. repeat split; auto.
  rewrite countChar_app, HLF; auto. destruct os; reflexivity.
Qed.

(** Rendering a check result fails only on the host key it carries. *)
Lemma format_fails_iff r e :
  format r = inl e <->
  exists key, unverifiedHostKey r = Some key /\ formatPublicKey (JStr key) = inl e.
Proof.
  unfold formatConnectionCheckResult. split.
  - destruct (unverifiedHostKey r) as [key|].
    + destruct (formatPublicKey (JStr key)) as [e'|k] eqn:F; [|discriminate].
      intros [= <-]. eauto.
    + destruct (error r); discriminate.
  - intros (key & -> & ->). reflexivity.
Qed.

(** X7: when the check reports a host key that [formatPublicKey] rejects,
    check-only mode has made its check but writes nothing to standard output
    and ends with [formatPublicKey]'s error, so with a non-zero exit code;
    this is the only way rendering a result fails. *)
Theorem check_only_unformattable_host_key cfg url pk key e :
  configFromEnv = inr (cfg, url) ->
  formatPublicKey (prop "clientPrivateKey" cfg) = inr pk ->
  checkOnly env argv = true ->
  unverifiedHostKey (checkConnection cfg) = Some key ->
  formatPublicKey (JStr key) = inl e ->
  snd theMain = Throw e
  /\ exitCode (snd theMain) = Some 1
  /\ stdoutOf (fst theMain) = []
  /\ List.filter isCheck (fst theMain) = [CheckConnection cfg]
  /\ (forall r e', format r = inl e' ->
        exists key', unverifiedHostKey r = Some key'
                     /\ formatPublicKey (JStr key') = inl e').
Proof.
  intros H K C U F. rewrite (main_eq cfg url pk H K), C.
  assert (Hf : format (checkConnection cfg) = inl e) by (apply format_fails_iff; eauto).
  rewrite Hf. simpl.
  destruct (startupLog_quiet env cfg pk) as (_ & Q1 & _ & Q2).
  rewrite stdoutOf_app, List.filter_app, Q1, Q2.
  repeat split; auto. intros r e'. apply format_fails_iff.
Qed.

(** X8: steady-state mode. [main] itself writes nothing to standard output
    and makes no one-shot check; the docker client is created before the SSH
    client; the container listener and the status server exist only when the
    SSH client connected, and then the server listens on PORT when that
    variable is set (the empty string included) and on 3000 when it is not;
    a rejected [createSshClient] rejects [main] with the same error. *)
Theorem steady_state_startup cfg url pk :
  configFromEnv = inr (cfg, url) ->
  formatPublicKey (prop "clientPrivateKey" cfg) = inr pk ->
  checkOnly env argv = false ->
  stdoutOf (fst theMain) = []
  /\ List.filter isCheck (fst theMain) = []
  /\ (exists rest,
        fst theMain
        = (startupLog env cfg pk
           ++ [NewDocker "/var/run/docker.sock"; CreateDockerClient 500; CreateSshClient cfg]
           ++ rest)%list)
  /\ (In ListenToContainers (fst theMain) <-> createSshClient cfg = Connected)
  /\ (In CreateWebServer (fst theMain) <-> createSshClient cfg = Connected)
  /\ (snd theMain = Return tt <-> createSshClient cfg = Connected)
  /\ (createSshClient cfg = Connected ->
      exists before,
        fst theMain
        = (before ++ [ListenToContainers; CreateWebServer;
                      Listen (match env !! "PORT" with
                              | Some p => JStr p
                              | None => JNum 3000
                              end)])%list)
  /\ (forall e, createSshClient cfg = Rejected e -> snd theMain = Throw e).
Proof.
  intros H K C. rewrite (main_eq cfg url pk H K), C. unfold steadyPrefix.
  destruct (startupLog_quiet env cfg pk) as (_ & Q1 & _ & Q2).
  assert (Hport : nullish (envVar env "PORT") (JNum 3000)
                  = match env !! "PORT" with Some p => JStr p | None => JNum 3000 end)
    by (unfold envVar; now destruct (env !! "PORT")).
  assert (Hs : forall ev, (forall f a, ev <> Log Debug f a) ->
                          ~ In ev (startupLog env cfg pk)).
  { intros ev Hev Hin. destruct (startupLog_cases env cfg pk) as [E|E];
      rewrite E in Hin; [destruct Hin|]. destruct Hin as [Hin|[]].
    symmetry in Hin. now apply Hev in Hin. }
  destruct (createSshClient cfg) as [|e|e]; simpl fst; simpl snd;
    rewrite ?logError_always, ?log_info_always, ?Hport;
    rewrite ?stdoutOf_app, ?List.filter_app, ?Q1, ?Q2; simpl.
  - repeat split; auto; try discriminate.
    + rewrite <- app_assoc. simpl. eauto.
    + intros _. apply in_or_app. right. simpl. auto 10.
    + intros _. apply in_or_app. right. simpl. auto 10.
    + intros _.
      exists (startupLog env cfg pk
              ++ [NewDocker "/var/run/docker.sock"; CreateDockerClient 500;
                  CreateSshClient cfg; Log Info "ssh client connected to %j" [JStr url]])%list.
      now rewrite <- !app_assoc.
  - repeat split; auto; try discriminate.
    + exists []. reflexivity.
    + intros Hin. apply in_app_or in Hin as [Hin|Hin]; [|in_absurd Hin].
      exfalso. revert Hin. apply Hs. discriminate.
    + intros Hin. apply in_app_or in Hin as [Hin|Hin]; [|in_absurd Hin].
      exfalso. revert Hin. apply Hs. discriminate.
    + intros e' [= <-]. reflexivity.
  - repeat split; auto; try discriminate.
    + rewrite <- app_assoc. simpl. eauto.
    + intros Hin. repeat (apply in_app_or in Hin as [Hin|Hin]); try in_absurd Hin.
      exfalso. revert Hin. apply Hs. discriminate.
    + intros Hin. repeat (apply in_app_or in Hin as [Hin|Hin]); try in_absurd Hin.
      exfalso. revert Hin. apply Hs. discriminate.
Qed.

(** X9: the configuration handed to the connection check and to the SSH
    client is the one read from the environment, with the private key
    itself under [clientPrivateKey]: the redaction touches the logged copy
    only. *)
Theorem connection_gets_the_real_key c :
  In (CheckConnection c) (fst theMain) \/ In (CreateSshClient c) (fst theMain) ->
  exists url key pk,
    configFromEnv = inr (c, url)
    /\ clientPrivateKeyFromEnv env readFileSync pathJoin = inr key
    /\ getProp "clientPrivateKey" c = Some key
    /\ formatPublicKey key = inr pk
    /\ getProp "clientPrivateKey" (sshConfigLog c pk) = Some (JStr REDACTED).
Proof.
  intros Hin.
  destruct configFromEnv as [e|[cfg url]] eqn:H.
  { rewrite (main_config_error env argv os parseSshUrl formatPublicKey readFileSync pathJoin
               inspect checkConnection createSshClient e H) in Hin.
    destruct Hin as [[]|[]]. }
  destruct (formatPublicKey (prop "clientPrivateKey" cfg)) as [e|pk] eqn:K.
  { rewrite (main_key_error env argv os parseSshUrl formatPublicKey readFileSync pathJoin
               inspect checkConnection createSshClient cfg url e H K) in Hin.
    destruct Hin as [[]|[]]. }
  assert (Hc : c = cfg).
  { rewrite (main_eq cfg url pk H K) in Hin.
    assert (Hs : forall ev, (forall f a, ev <> Log Debug f a) ->
                            ~ In ev (startupLog env cfg pk)).
    { intros ev Hev Hi. destruct (startupLog_cases env cfg pk) as [E|E];
        rewrite E in Hi; [destruct Hi|]. destruct Hi as [Hi|[]].
      symmetry in Hi. now apply Hev in Hi. }
    unfold steadyPrefix in Hin.
    destruct (checkOnly env argv);
      [destruct (format (checkConnection cfg))|destruct (createSshClient cfg)];
      simpl fst in Hin; rewrite ?logError_always, ?log_info_always in Hin;
      destruct Hin as [Hin|Hin];
      repeat (apply in_app_or in Hin as [Hin|Hin]);
      try (exfalso; revert Hin; apply Hs; discriminate);
      simpl in Hin;
      repeat (destruct Hin as [Hin|Hin]; [try discriminate Hin; now injection Hin|]);
      destruct Hin. }
  subst c. exists url.
  pose proof H as H'.
  apply sshConnectionConfigFromEnv_inr in H' as (parsed & key & _ & _ & Hk & E).
  assert (G : getProp "clientPrivateKey" cfg = Some key)
    by (rewrite E; apply literal_clientPrivateKey).
  exists key, pk. repeat split; auto using sshConfigLog_clientPrivateKey.
  unfold prop in K. now rewrite G in K.
Qed.

(** X10: the document for a failed check. Its JSON text has the properties
    [error], [stack] and [details] in this order, and leaves [stack] out
    when the error has none; [error] is the error's message, or its string
    form when the message is empty, so it is empty only for an error with
    neither a name nor a message. *)
Theorem error_document_text r e :
  unverifiedHostKey r = None -> error r = Some e ->
  exists doc msg,
    format r = inr doc
    /\ msg = (if String.eqb (err_message e) "" then errorToString e else err_message e)
    /\ (msg = "" -> err_name e = "" /\ err_message e = "")
    /\ stringify doc
       = Some ("{" +:+ join ","
                 ([quote "error" +:+ ":" +:+ quote msg]
                  ++ match err_stack e with
                     | Some s => [quote "stack" +:+ ":" +:+ quote s]
                     | None => []
                     end
                  ++ [quote "details" +:+ ":" +:+ quote (inspect e)])%list
               +:+ "}").
Proof.
  intros U E. unfold formatConnectionCheckResult. rewrite U, E.
  eexists. eexists. split; [reflexivity|]. split; [reflexivity|]. split.
  - unfold errorToString.
    destruct (String.eqb (err_message e) "") eqn:M.
    + apply String.eqb_eq in M. rewrite M.
      destruct (String.eqb (err_name e) "") eqn:N.
      * apply String.eqb_eq in N. auto.
      * apply String.eqb_neq in N. simpl. intros Hn. contradiction.
    + apply String.eqb_neq in M. intros Hm. contradiction.
  - unfold or_else. simpl truthy.
    destruct (String.eqb (err_message e) ""); destruct (err_stack e); reflexivity.
Qed.

End MainRuns.

(* ===================================================================== *)
(** ** More about the running process                                     *)
(* ===================================================================== *)

Section RunningFacts.

Variable env : gmap string string.
Variable os : platform.

Local Abbreviation step' := (step env os).
Local Abbreviation run' := (run env os).

Lemma calls_snoc ins i :
  calls (ins ++ [i]) = (calls ins ++ match i with GetSshState c => [c] | _ => [] end)%list.
Proof. unfold calls. rewrite omap_app. now destruct i. Qed.

Lemma published_snoc ins i :
  published (ins ++ [i])
  = (published ins ++ match i with UpdateTunnelsDone s => [s] | _ => [] end)%list.
Proof. unfold published. rewrite omap_app. now destruct i. Qed.

Lemma stdoutOf_logError e : stdoutOf (fst (logError env e)) = [].
Proof. unfold logError. now destruct (Z.leb _ _). Qed.

Lemma stdoutOf_log lvl fmt args : stdoutOf (fst (log env lvl fmt args)) = [].
Proof. unfold log. now destruct (Z.leb _ _). Qed.

(** What one step adds to standard output. *)
Lemma step_stdout r i :
  stdoutOf (out (step' r i))
  = (stdoutOf (out r)
     ++ match exited r, i with
        | None, UpdateTunnelsDone s => stateLine os s
        | _, _ => []
        end)%list.
Proof.
  unfold step. destruct (exited r) eqn:Ha; [now rewrite app_nil_r|].
  destruct i as [s|c|c|e|e|a]; [|simpl..].
  - unfold stateLine. destruct (stringify_JObj s) as [doc S]. rewrite S. simpl.
    now rewrite stdoutOf_app.
  - destruct (initResolved r); simpl; now rewrite app_nil_r.
  - destruct (bool_decide (c ∈ jobs r)); simpl; now rewrite app_nil_r.
  - now rewrite stdoutOf_app, stdoutOf_logError.
  - now rewrite stdoutOf_app, stdoutOf_logError.
  - now rewrite stdoutOf_app, stdoutOf_log.
Qed.

Lemma run_alive_prefix ins i :
  exited (run' started (ins ++ [i])) = None -> exited (run' started ins) = None.
Proof. rewrite run_snoc. apply step_alive. Qed.

Lemma stdout_alive ins :
  exited (run' started ins) = None ->
  stdoutOf (out (run' started ins)) = concat (List.map (stateLine os) (published ins)).
Proof.
  induction ins as [|i ins IH] using rev_ind; [reflexivity|].
  intros Hx. pose proof (run_alive_prefix _ _ Hx) as Ha.
  rewrite run_snoc, step_stdout, Ha, (IH Ha), published_snoc, List.map_app, concat_app.
  f_equal. destruct i; simpl; now rewrite ?app_nil_r.
Qed.

(** X11: standard output of the running process is the lines of the
    completed reconciliation cycles, one per cycle in the order the cycles
    completed, and nothing else: no log line, no answer to the status
    server and no error reaches it. Once the process has exited it is the
    lines of the cycles completed until then. *)
Theorem stdout_is_the_published_states (ins : list input) :
  (exited (run' started ins) = None ->
   stdoutOf (out (run' started ins)) = concat (List.map (stateLine os) (published ins)))
  /\ exists k,
       (k <= length (published ins))%nat
       /\ stdoutOf (out (run' started ins))
          = concat (List.map (stateLine os) (firstn k (published ins))).
Proof.
  split; [apply stdout_alive|].
  induction ins as [|i ins IH] using rev_ind.
  - exists 0%nat. split; [simpl; lia|reflexivity].
  - destruct (exited (run' started ins)) as [code|] eqn:Ha.
    + destruct IH as (k & Hk & E). exists k.
      rewrite run_snoc, (step_exited env os _ i code Ha), published_snoc, length_app.
      split; [lia|]. rewrite firstn_app.
      replace (k - length (published ins))%nat with 0%nat by lia.
      simpl. now rewrite app_nil_r.
    + exists (length (published (ins ++ [i]))). split; [lia|].
      rewrite firstn_all, run_snoc, step_stdout, Ha, (stdout_alive ins Ha).
      rewrite published_snoc, List.map_app, concat_app.
      f_equal. destruct i; simpl; now rewrite ?app_nil_r.
Qed.

Lemma removeFirst_perm c l : c ∈ l -> l ≡ₚ c :: removeFirst c l.
Proof.
  induction l as [|x l IH]; intros Hin; [inversion Hin|].
  simpl. destruct (Nat.eqb c x) eqn:E.
  - apply Nat.eqb_eq in E. now subst.
  - apply Nat.eqb_neq in E. apply elem_of_cons in Hin as [->|Hin]; [congruence|].
    rewrite (IH Hin) at 1. apply Permutation_swap.
Qed.

(** While the process lives, every call is in exactly one place: answered,
    waiting for [initPromise], or queued as a reaction job; nothing waits
    once [initPromise] is fulfilled. *)
Lemma calls_inv ins :
  exited (run' started ins) = None ->
  calls ins ≡ₚ (List.map fst (answers (run' started ins))
                ++ thenWaiting (run' started ins) ++ jobs (run' started ins))%list
  /\ (initResolved (run' started ins) = true -> thenWaiting (run' started ins) = []).
Proof.
  induction ins as [|i ins IH] using rev_ind; [intros _; split; [reflexivity|discriminate]|].
  intros Hx. pose proof (run_alive_prefix _ _ Hx) as Ha.
  destruct (IH Ha) as [IHp IHw]. rewrite run_snoc, calls_snoc in *.
  set (r := run' started ins) in *.
  destruct i as [s|c|c|e|e|a].
  - destruct (step_UpdateTunnelsDone env os r s Ha) as (doc & _ & ->). simpl.
    split; [|reflexivity]. rewrite app_nil_r, IHp.
    destruct (initResolved r).
    + now rewrite (IHw eq_refl).
    + apply Permutation_app_head, Permutation_app_comm.
  - unfold step. rewrite Ha. destruct (initResolved r) eqn:R; simpl.
    + split; [|auto]. rewrite IHp, <- ?app_assoc. reflexivity.
    + split; [|discriminate]. rewrite IHp, <- ?app_assoc.
      do 2 apply Permutation_app_head. apply Permutation_app_comm.
  - unfold step. rewrite Ha. destruct (bool_decide (c ∈ jobs r)) eqn:J; simpl.
    + apply bool_decide_eq_true in J. split; [|exact IHw].
      rewrite app_nil_r, IHp, List.map_app. simpl.
      rewrite (removeFirst_perm c (jobs r) J) at 1.
      rewrite <- !app_assoc. apply Permutation_app_head. simpl.
      now rewrite Permutation_middle.
    + split; [|exact IHw]. now rewrite app_nil_r.
  - unfold step in Hx. fold r in Hx. rewrite Ha in Hx. discriminate.
  - unfold step in Hx. fold r in Hx. rewrite Ha in Hx. discriminate.
  - unfold step. rewrite Ha. simpl. split; [|exact IHw]. now rewrite app_nil_r.
Qed.

(** X12: no [getSshState()] call is lost, answered twice or made up. While
    the process lives the calls made are, as a multiset, the calls answered
    together with the calls still pending; before the first cycle completes
    all of them are pending, and no call is left waiting on [initPromise]
    after it. *)
Theorem calls_are_conserved (ins : list input) :
  exited (run' started ins) = None ->
  calls ins ≡ₚ (List.map fst (answers (run' started ins))
                ++ thenWaiting (run' started ins) ++ jobs (run' started ins))%list
  /\ (lastPublished ins = None -> thenWaiting (run' started ins) ≡ₚ calls ins)
  /\ (lastPublished ins <> None -> thenWaiting (run' started ins) = []).
Proof.
  intros Ha. destruct (calls_inv ins Ha) as [Hp Hw].
  destruct (run_alive_inv env os ins Ha) as [_ Hr].
  destruct (run_pending_inv env os ins) as [P1 P2].
  split; [exact Hp|]. split.
  - intros L. destruct (P2 (P1 L)) as [Hj Hans].
    rewrite Hp, Hj, Hans. simpl. now rewrite app_nil_r.
  - intros L. apply Hw. rewrite Hr. now apply bool_decide_eq_true.
Qed.

(** Running the queued reaction jobs in order answers each with the state
    the process holds, and changes nothing else. *)
Lemma drain_jobs : forall l r,
  exited r = None -> jobs r = l ->
  run' r (List.map RunReaction l)
  = mkRunning (state r) (initResolved r) (thenWaiting r) [] (out r)
              (answers r ++ List.map (fun c => (c, state r)) l)%list None.
Proof.
  induction l as [|c l IH]; intros r Ha Hj; simpl.
  - rewrite app_nil_r. destruct r; simpl in *. now subst.
  - assert (E : step' r (RunReaction c)
                = mkRunning (state r) (initResolved r) (thenWaiting r) l (out r)
                            (answers r ++ [(c, state r)])%list None).
    { unfold step. rewrite Ha, Hj.
      rewrite bool_decide_eq_true_2 by (apply list_elem_of_In; now left).
      simpl. now rewrite Nat.eqb_refl. }
    fold (run' (step' r (RunReaction c)) (List.map RunReaction l)).
    rewrite E, IH by reflexivity. simpl. now rewrite <- app_assoc.
Qed.

(** X13: once a cycle has completed, running the queued reaction jobs
    answers every pending call, in the order the jobs were queued, with the
    state of the cycle that completed last; after that every call made has
    its answer, and nothing was written. *)
Theorem pending_calls_get_the_last_state (ins : list input) (s : SshState) :
  exited (run' started ins) = None ->
  lastPublished ins = Some s ->
  answers (run' started (ins ++ List.map RunReaction (jobs (run' started ins))))
  = (answers (run' started ins)
     ++ List.map (fun c => (c, Some s)) (jobs (run' started ins)))%list
  /\ jobs (run' started (ins ++ List.map RunReaction (jobs (run' started ins)))) = []
  /\ calls ins
     ≡ₚ List.map fst
          (answers (run' started (ins ++ List.map RunReaction (jobs (run' started ins)))))
  /\ out (run' started (ins ++ List.map RunReaction (jobs (run' started ins))))
     = out (run' started ins).
Proof.
  intros Ha L.
  destruct (run_alive_inv env os ins Ha) as [Hs Hr].
  destruct (calls_inv ins Ha) as [Hp Hw].
  assert (Hres : initResolved (run' started ins) = true).
  { rewrite Hr, L. now apply bool_decide_eq_true. }
  assert (E : run' started (ins ++ List.map RunReaction (jobs (run' started ins)))
              = run' (run' started ins) (List.map RunReaction (jobs (run' started ins))))
    by (unfold run; apply fold_left_app).
  rewrite E, (drain_jobs _ _ Ha eq_refl). simpl. rewrite Hs, L.
  repeat split; auto.
  rewrite Hp, (Hw Hres), List.map_app, List.map_map. simpl.
  now rewrite List.map_id.
Qed.

Lemma run_exited ins : forall r code, exited r = Some code -> run' r ins = r.
Proof.
  induction ins as [|i ins IH]; intros r code H; [reflexivity|].
  simpl. rewrite (step_exited env os r i code H). now apply IH with code.
Qed.

(** X14: both error handlers behave alike. Whatever the process was doing,
    an error of the SSH client or of the status server is logged, at every
    logger level, and the process exits with code 1; nothing is written to
    standard output for it, and nothing that arrives later has any effect. *)
Theorem error_handlers_log_and_exit (r : running) (e : JsError) (i : input)
    (later : list input) :
  exited r = None ->
  i = SshClientError e \/ i = WebServerError e ->
  step' r i
  = mkRunning (state r) (initResolved r) (thenWaiting r) (jobs r)
              (out r ++ [LogError e])%list (answers r) (Some 1)
  /\ stdoutOf (out (step' r i)) = stdoutOf (out r)
  /\ run' r (i :: later) = step' r i.
Proof.
  intros Ha Hi.
  assert (E : step' r i
              = mkRunning (state r) (initResolved r) (thenWaiting r) (jobs r)
                          (out r ++ [LogError e])%list (answers r) (Some 1)).
  { destruct Hi as [-> | ->]; unfold step, fatal; now rewrite Ha, logError_always. }
  split; [exact E|]. split.
  - rewrite E. simpl. rewrite stdoutOf_app. simpl. now rewrite app_nil_r.
  - simpl. fold (run' (step' r i) later). apply run_exited with 1. now rewrite E.
Qed.

(** What the answers, the pending calls and the held state come from. *)
Lemma provenance_inv ins :
  (forall c, In c (jobs (run' started ins)) \/ In c (thenWaiting (run' started ins)) ->
             In c (calls ins))
  /\ (forall s, state (run' started ins) = Some s -> In s (published ins))
  /\ (initResolved (run' started ins) = true -> state (run' started ins) <> None)
  /\ (jobs (run' started ins) <> [] -> initResolved (run' started ins) = true)
  /\ (forall c v, In (c, v) (answers (run' started ins)) ->
                  In c (calls ins) /\ exists s, v = Some s /\ In s (published ins)).
Proof.
  induction ins as [|i ins IH] using rev_ind.
  - simpl. split; [|split; [|split; [|split]]]; try discriminate; tauto.
  - destruct IH as (I1 & I2 & I3 & I4 & I5).
    rewrite run_snoc, calls_snoc, published_snoc.
    set (r := run' started ins) in *.
    assert (M1 : forall c, In c (jobs r) \/ In c (thenWaiting r) ->
                 In c (calls ins ++ match i with GetSshState c0 => [c0] | _ => [] end))
      by (intros c H; apply in_or_app; left; now apply I1).
    assert (M2 : forall s, state r = Some s ->
                 In s (published ins ++ match i with UpdateTunnelsDone s0 => [s0] | _ => [] end))
      by (intros s H; apply in_or_app; left; now apply I2).
    assert (M5 : forall c v, In (c, v) (answers r) ->
                 In c (calls ins ++ match i with GetSshState c0 => [c0] | _ => [] end)
                 /\ exists s, v = Some s
                      /\ In s (published ins
                               ++ match i with UpdateTunnelsDone s0 => [s0] | _ => [] end)).
    { intros c v H. destruct (I5 c v H) as (Hc & s & -> & Hs).
      split; [apply in_or_app; now left|]. exists s. split; [reflexivity|].
      apply in_or_app. now left. }
    destruct (exited r) as [code|] eqn:Ha.
    { rewrite (step_exited env os r i code Ha). auto. }
    destruct i as [s|c0|c0|e|e|a].
    + destruct (step_UpdateTunnelsDone env os r s Ha) as (doc & _ & ->). simpl.
      split; [|split; [|split; [|split]]]; auto; try discriminate.
      * intros c [Hc|[]]. apply M1.
        destruct (initResolved r); [auto|].
        apply in_app_or in Hc as [Hc|Hc]; auto.
      * intros s' [= <-]. apply in_or_app. right. now left.
    + unfold step. rewrite Ha. destruct (initResolved r) eqn:R; simpl.
      * split; [|split; [|split; [|split]]]; auto.
        intros c [Hc|Hc]; [|now apply M1; right].
        apply in_app_or in Hc as [Hc|[<-|[]]]; [now apply M1; left|].
        apply in_or_app. right. now left.
      * split; [|split; [|split; [|split]]]; auto; try discriminate.
        intros c [Hc|Hc]; [now apply M1; left|].
        apply in_app_or in Hc as [Hc|[<-|[]]]; [now apply M1; right|].
        apply in_or_app. right. now left.
    + unfold step. rewrite Ha.
      destruct (bool_decide (c0 ∈ jobs r)) eqn:J; simpl;
        [|split; [|split; [|split; [|split]]]; auto].
      apply bool_decide_eq_true, list_elem_of_In in J.
      assert (Hn : jobs r <> []) by (intros E; rewrite E in J; destruct J).
      assert (Hsub : forall c, In c (removeFirst c0 (jobs r)) -> In c (jobs r)).
      { clear. induction (jobs r) as [|x l IHl]; simpl; [tauto|].
        destruct (Nat.eqb c0 x); simpl; intuition. }
      split; [|split; [|split; [|split]]]; auto.
      * intros c [Hc|Hc]; apply M1; auto.
      * intros c v H. apply in_app_or in H as [H|[H|[]]]; [now apply M5|].
        injection H as <- <-. split; [apply M1; now left|].
        destruct (state r) as [s|] eqn:S.
        -- exists s. split; [reflexivity|]. now apply M2.
        -- exfalso. now apply (I3 (I4 Hn)).
    + unfold step, fatal. rewrite Ha. simpl. auto.
    + unfold step, fatal. rewrite Ha. simpl. auto.
    + unfold step. rewrite Ha. simpl. auto.
Qed.

(** X15: every answer the status server ever got is the answer to a
    [getSshState()] call that was made, and is the state of a reconciliation
    cycle that completed: never [undefined], never a state that was not
    published. *)
Theorem answers_are_published_states (ins : list input) (c : nat) (v : option SshState) :
  In (c, v) (answers (run' started ins)) ->
  In (GetSshState c) ins
  /\ exists s, v = Some s /\ In (UpdateTunnelsDone s) ins.
Proof.
  intros H. destruct (provenance_inv ins) as (_ & _ & _ & _ & I5).
  destruct (I5 c v H) as (Hc & s & -> & Hs). split.
  - unfold calls in Hc. apply list_elem_of_In, list_elem_of_omap in Hc as (i & Hi & E).
    destruct i; try discriminate. injection E as ->. now apply list_elem_of_In.
  - exists s. split; [reflexivity|].
    unfold published in Hs. apply list_elem_of_In, list_elem_of_omap in Hs as (i & Hi & E).
    destruct i; try discriminate. injection E as ->. now apply list_elem_of_In.
Qed.

End RunningFacts.

(* ===================================================================== *)
(** ** The whole-run properties on the sample inputs                      *)
(* ===================================================================== *)

Lemma username_and_tlsServerName_defaults_witness :
  sshConnectionConfigFromEnv (<["USER" := ""]> Demo.env) Demo.parseSshUrl Demo.readFileSync
    Demo.pathJoin = inr (setProp "username" (JStr "") Demo.config, Demo.sshUrl)
  /\ getProp "username" (setProp "username" (JStr "") Demo.config) = Some (JStr "")
  /\ getProp "tlsServerName" (setProp "username" (JStr "") Demo.config) = Some JUndefined.
Proof.
  assert (H : sshConnectionConfigFromEnv (<["USER" := ""]> Demo.env) Demo.parseSshUrl
                Demo.readFileSync Demo.pathJoin
              = inr (setProp "username" (JStr "") Demo.config, Demo.sshUrl))
    by (vm_compute; reflexivity).
  split; [exact H|].
  destruct (username_and_tlsServerName_defaults _ _ _ _ _ _ H) as [Hu Ht].
  split; [rewrite Hu|rewrite Ht]; vm_compute; reflexivity.
Defined.

Lemma clientPrivateKey_source_witness :
  sshConnectionConfigFromEnv Demo.env Demo.parseSshUrl Demo.readFileSync Demo.pathJoin
  = inr (Demo.config, Demo.sshUrl)
  /\ exists k,
       getProp "clientPrivateKey" Demo.config = Some (JStr k)
       /\ Demo.env !! "SSH_PRIVATE_KEY" = Some k.
Proof.
  assert (H : sshConnectionConfigFromEnv Demo.env Demo.parseSshUrl Demo.readFileSync
                Demo.pathJoin = inr (Demo.config, Demo.sshUrl))
    by (vm_compute; reflexivity).
  split; [exact H|].
  destruct (clientPrivateKey_source _ _ _ _ _ _ H) as (k & G & [[E _] | [[E|E] _]]).
  - exists k. auto.
  - vm_compute in E. discriminate E.
  - vm_compute in E. discriminate E.
Defined.

Lemma parsed_url_cannot_override_witness :
  getProp "username"
    (connectionConfigLiteral Demo.env [("username", JStr "mallory"); ("port", JNum 22)]
       (JStr "PRIVATE"))
  = getProp "username" (connectionConfigLiteral Demo.env [] (JStr "PRIVATE"))
  /\ getProp "port"
       (connectionConfigLiteral Demo.env [("username", JStr "mallory"); ("port", JNum 22)]
          (JStr "PRIVATE"))
     = Some (JNum 22).
Proof.
  split.
  - destruct (parsed_url_cannot_override Demo.env
                [("username", JStr "mallory"); ("port", JNum 22)] (JStr "PRIVATE") "username")
      as [H _].
    apply H. simpl. auto.
  - destruct (parsed_url_cannot_override Demo.env
                [("username", JStr "mallory"); ("port", JNum 22)] (JStr "PRIVATE") "port")
      as [_ H].
    destruct H as [_ H].
    + simpl. intros [E|[E|[E|[E|[E|[]]]]]]; discriminate E.
    + rewrite H; reflexivity.
Defined.

Lemma env_key_ignores_key_file_witness :
  sshConnectionConfigFromEnv Demo.env Demo.parseSshUrl Demo.readFileSync Demo.pathJoin
  = sshConnectionConfigFromEnv Demo.env Demo.parseSshUrl (fun _ => inr "FILE KEY")
      (fun _ => "/elsewhere").
Proof.
  apply (env_key_ignores_key_file Demo.env Demo.parseSshUrl Demo.readFileSync
           (fun _ => inr "FILE KEY") Demo.pathJoin (fun _ => "/elsewhere") "PRIVATE").
  - vm_compute. reflexivity.
  - discriminate.
Defined.

Lemma debug_line_iff_DEBUG_witness :
  In (Log Debug "ssh config: %j" [JObj (sshConfigLog Demo.config "ssh-rsa PRIVATE")])
     (fst (Demo.mainWith Demo.env Demo.argvRun Demo.unverified Demo.connects))
  /\ In (Log Info "ssh client connected to %j" [JStr Demo.sshUrl])
        (fst (Demo.mainWith Demo.env Demo.argvRun Demo.unverified Demo.connects)).
Proof.
  destruct (debug_line_iff_DEBUG Demo.env Demo.argvRun Posix Demo.parseSshUrl
              Demo.formatPublicKey Demo.readFileSync Demo.pathJoin Demo.inspect
              Demo.unverified Demo.connects Demo.config Demo.sshUrl "ssh-rsa PRIVATE")
    as [Hd Hi]; [vm_compute; reflexivity | vm_compute; reflexivity |].
  split.
  - apply Hd. exists "1". split; [vm_compute; reflexivity | discriminate].
  - apply Hi; [vm_compute; reflexivity | reflexivity].
Defined.

Lemma check_only_output_is_one_line_witness :
  exists text,
    stdoutOf (fst (Demo.mainWith Demo.env Demo.argvCheck Demo.unverified Demo.connects))
    = [text; EOL Posix]
    /\ countChar LF (text +:+ EOL Posix) = 1%nat.
Proof.
  destruct (check_only_output_is_one_line Demo.env Demo.argvCheck Posix Demo.parseSshUrl
              Demo.formatPublicKey Demo.readFileSync Demo.pathJoin Demo.inspect
              Demo.unverified Demo.connects Demo.config Demo.sshUrl "ssh-rsa PRIVATE")
    as (text & O & _ & _ & L);
    [vm_compute; reflexivity | vm_compute; reflexivity | vm_compute; reflexivity
    | reflexivity |].
  exists text. auto.
Defined.

Lemma check_only_unformattable_host_key_witness :
  Demo.formatPublicKey (JStr "") = inl (mkError "Error" "cannot parse key" None)
  /\ Demo.mainWith Demo.env Demo.argvCheck Sample.emptyKey Demo.connects
     = ([Log Debug "ssh config: %j" [JObj (sshConfigLog Demo.config "ssh-rsa PRIVATE")];
         CheckConnection Demo.config],
        Throw (mkError "Error" "cannot parse key" None))
  /\ stdoutOf (fst (Demo.mainWith Demo.env Demo.argvCheck Sample.emptyKey Demo.connects)) = []
  /\ exitCode (snd (Demo.mainWith Demo.env Demo.argvCheck Sample.emptyKey Demo.connects))
     = Some 1.
Proof.
  split; [reflexivity|]. split; [vm_compute; reflexivity|].
  destruct (check_only_unformattable_host_key Demo.env Demo.argvCheck Posix Demo.parseSshUrl
              Demo.formatPublicKey Demo.readFileSync Demo.pathJoin Demo.inspect
              Sample.emptyKey Demo.connects Demo.config Demo.sshUrl "ssh-rsa PRIVATE" ""
              (mkError "Error" "cannot parse key" None))
    as (_ & X & O & _);
    [vm_compute; reflexivity | vm_compute; reflexivity | vm_compute; reflexivity
    | reflexivity | reflexivity |].
  unfold Demo.mainWith. auto.
Defined.

Lemma steady_state_startup_witness :
  checkOnly Demo.env Demo.argvRun = false
  /\ stdoutOf (fst (Demo.mainWith Demo.env Demo.argvRun Demo.unverified Demo.connects)) = []
  /\ In ListenToContainers
        (fst (Demo.mainWith Demo.env Demo.argvRun Demo.unverified Demo.connects))
  /\ ~ In ListenToContainers
         (fst (Demo.mainWith Demo.env Demo.argvRun Demo.unverified
                 (fun _ => Rejected Demo.refused)))
  /\ snd (Demo.mainWith Demo.env Demo.argvRun Demo.unverified (fun _ => Rejected Demo.refused))
     = Throw Demo.refused.
Proof.
  assert (C : checkOnly Demo.env Demo.argvRun = false) by (vm_compute; reflexivity).
  split; [exact C|].
  destruct (steady_state_startup Demo.env Demo.argvRun Posix Demo.parseSshUrl
              Demo.formatPublicKey Demo.readFileSync Demo.pathJoin Demo.inspect
              Demo.unverified Demo.connects Demo.config Demo.sshUrl "ssh-rsa PRIVATE")
    as (O & _ & _ & L & _); [vm_compute; reflexivity | vm_compute; reflexivity | exact C |].
  destruct (steady_state_startup Demo.env Demo.argvRun Posix Demo.parseSshUrl
              Demo.formatPublicKey Demo.readFileSync Demo.pathJoin Demo.inspect
              Demo.unverified (fun _ => Rejected Demo.refused) Demo.config Demo.sshUrl
              "ssh-rsa PRIVATE")
    as (_ & _ & _ & L' & _ & _ & _ & R);
    [vm_compute; reflexivity | vm_compute; reflexivity | exact C |].
  unfold Demo.mainWith. split; [exact O|]. split; [now apply L|]. split.
  - intros Hin. apply L' in Hin. discriminate Hin.
  - now apply R.
Defined.

Lemma connection_gets_the_real_key_witness :
  In (CreateSshClient Demo.config)
     (fst (Demo.mainWith Demo.env Demo.argvRun Demo.unverified Demo.connects))
  /\ getProp "clientPrivateKey" Demo.config = Some (JStr "PRIVATE")
  /\ exists url key pk,
       sshConnectionConfigFromEnv Demo.env Demo.parseSshUrl Demo.readFileSync Demo.pathJoin
       = inr (Demo.config, url)
       /\ getProp "clientPrivateKey" Demo.config = Some key
       /\ getProp "clientPrivateKey" (sshConfigLog Demo.config pk)
          = Some (JStr "*** REDACTED ***").
Proof.
  assert (Hin : In (CreateSshClient Demo.config)
                   (fst (Demo.mainWith Demo.env Demo.argvRun Demo.unverified Demo.connects)))
    by (vm_compute; auto 10).
  split; [exact Hin|]. split; [reflexivity|].
  destruct (connection_gets_the_real_key Demo.env Demo.argvRun Posix Demo.parseSshUrl
              Demo.formatPublicKey Demo.readFileSync Demo.pathJoin Demo.inspect
              Demo.unverified Demo.connects Demo.config (or_intror Hin))
    as (url & key & pk & H & _ & G & _ & R).
  exists url, key, pk. auto.
Defined.

Lemma error_document_text_witness :
  exists doc,
    formatConnectionCheckResult Demo.formatPublicKey Demo.inspect Sample.failed = inr doc
    /\ stringify doc
       = Some ("{" +:+ quote "error" +:+ ":" +:+ quote "connect ECONNREFUSED" +:+ ","
               +:+ quote "details" +:+ ":" +:+ quote "Error: connect ECONNREFUSED" +:+ "}").
Proof.
  destruct (error_document_text Demo.formatPublicKey Demo.inspect Sample.failed Demo.refused
              eq_refl eq_refl) as (doc & msg & F & M & _ & S).
  exists doc. split; [exact F|]. rewrite S, M. vm_compute. reflexivity.
Defined.

Lemma stdout_is_the_published_states_witness :
  exited (run Demo.env Posix started Sample.ins) = None
  /\ stdoutOf (out (run Demo.env Posix started Sample.ins))
     = ["{" +:+ quote "a" +:+ ":" +:+ quote "active" +:+ "}"; EOL Posix; "{}"; EOL Posix].
Proof.
  assert (Ha : exited (run Demo.env Posix started Sample.ins) = None) by reflexivity.
  split; [exact Ha|].
  destruct (stdout_is_the_published_states Demo.env Posix Sample.ins) as [H _].
  rewrite (H Ha). vm_compute. reflexivity.
Defined.

Lemma calls_are_conserved_witness :
  exited (run Demo.env Posix started Sample.ins) = None
  /\ calls Sample.ins
     ≡ₚ (List.map fst (answers (run Demo.env Posix started Sample.ins))
         ++ thenWaiting (run Demo.env Posix started Sample.ins)
         ++ jobs (run Demo.env Posix started Sample.ins))%list
  /\ jobs (run Demo.env Posix started Sample.ins) = [1%nat; 2%nat]
  /\ thenWaiting (run Demo.env Posix started Sample.ins) = [].
Proof.
  assert (Ha : exited (run Demo.env Posix started Sample.ins) = None) by reflexivity.
  split; [exact Ha|].
  destruct (calls_are_conserved Demo.env Posix Sample.ins Ha) as (P & _ & W).
  split; [exact P|]. split; [reflexivity|]. apply W. vm_compute. discriminate.
Defined.

Lemma pending_calls_get_the_last_state_witness :
  lastPublished Sample.ins = Some []
  /\ answers (run Demo.env Posix started
                (Sample.ins ++ List.map RunReaction
                                 (jobs (run Demo.env Posix started Sample.ins))))
     = [(1%nat, Some []); (2%nat, Some [])].
Proof.
  split; [reflexivity|].
  destruct (pending_calls_get_the_last_state Demo.env Posix Sample.ins []
              eq_refl eq_refl) as (A & _).
  rewrite A. vm_compute. reflexivity.
Defined.

Lemma error_handlers_log_and_exit_witness :
  exited (run Demo.env Posix started Sample.ins) = None
  /\ exited (run Demo.env Posix started
               (Sample.ins ++ [WebServerError Demo.refused; UpdateTunnelsDone Sample.tunnels]))
     = Some 1
  /\ stdoutOf (out (step Demo.env Posix (run Demo.env Posix started Sample.ins)
                      (WebServerError Demo.refused)))
     = stdoutOf (out (run Demo.env Posix started Sample.ins)).
Proof.
  split; [reflexivity|]. split; [reflexivity|].
  destruct (error_handlers_log_and_exit Demo.env Posix
              (run Demo.env Posix started Sample.ins) Demo.refused
              (WebServerError Demo.refused) [UpdateTunnelsDone Sample.tunnels] eq_refl
              (or_intror eq_refl)) as (_ & O & _).
  exact O.
Defined.

Lemma answers_are_published_states_witness :
  In (1%nat, Some Sample.tunnels)
     (answers (run Demo.env Posix started
                 [GetSshState 1; UpdateTunnelsDone Sample.tunnels; RunReaction 1]))
  /\ In (GetSshState 1) [GetSshState 1; UpdateTunnelsDone Sample.tunnels; RunReaction 1]
  /\ exists s,
       Some Sample.tunnels = Some s
       /\ In (UpdateTunnelsDone s)
             [GetSshState 1; UpdateTunnelsDone Sample.tunnels; RunReaction 1].
Proof.
  assert (Hin : In (1%nat, Some Sample.tunnels)
                   (answers (run Demo.env Posix started
                               [GetSshState 1; UpdateTunnelsDone Sample.tunnels;
                                RunReaction 1])))
    by (vm_compute; auto).
  split; [exact Hin|].
  exact (answers_are_published_states Demo.env Posix _ _ _ Hin).
Defined.
